(** * AI Memory Animator: request shaping, operation polling, result
      resolution, upload form and password endpoint

    A shallow embedding of
    - [src/services/geminiService.ts]       ([generateVideo]),
    - [src/components/VideoGeneratorForm.tsx] ([handleFileChange],
      [handleRemoveImage], [handleSubmit]),
    - [src/api/verify-password.ts]          ([handler]),
    together with the properties the specification states about them. *)

From stdpp Require Import base option list strings gmap.


(** ** JavaScript values and exceptions *)

Module Js.

(** A thrown JavaScript error object: its constructor name and message. *)
Record Exn := MkExn { exn_name : string; exn_message : string }.

(** [new Error(message)] *)
Definition Error (message : string) : Exn := MkExn "Error" message.

(** The [TypeError] raised by reading property [prop] of [undefined]. *)
Definition TypeError_undefined (prop : string) : Exn :=
  MkExn "TypeError"
        ("Cannot read properties of undefined (reading '" +:+ prop +:+ "')").

Global Instance Exn_eq_dec : EqDecision Exn.
Proof. solve_decision. Defined.

(** The state of a promise once the environment has nothing more to
    deliver: fulfilled, rejected, or never settled. *)
Inductive Outcome (A : Type) : Type :=
| Resolved (a : A)
| Rejected (e : Exn)
| Pending.
Global Arguments Resolved {A} a.
Global Arguments Rejected {A} e.
Global Arguments Pending {A}.

(** Truthiness of a value that is either [undefined] or a string: only a
    non-empty string is truthy.  [truthy_string v = Some s] returns the
    string when [v] is truthy. *)
Definition truthy_string (v : option string) : option string :=
  match v with
  | Some s => if decide (s = "") then None else Some s
  | None => None
  end.

End Js.
Import Js.

(** Optional chaining [o?.f] on a value that may be [undefined]. *)
Notation "o ?. f" := (mbind (M := option) f o)
  (at level 50, left associativity, format "o  ?.  f").

(** ** Data model of [geminiService.ts] *)

(** Modelled from the spec: the [AspectRatio] type of [../types], which is
    not part of the sources; the spec gives the enum {wide, tall} and the form
    offers ['16:9'] and ['9:16']. *)
Inductive AspectRatio := Ratio_16_9 | Ratio_9_16.

Global Instance AspectRatio_eq_dec : EqDecision AspectRatio.
Proof. solve_decision. Defined.

(** An element of the [images] argument: [{ data: string; mimeType: string }]. *)
Record ImageInput := { data : string; mimeType : string }.

(** [{ imageBytes, mimeType }] as sent to the backend. *)
Record Image := { imageBytes : string; image_mimeType : string }.

(** [{ image, referenceType }], an element of [referenceImages]. *)
Record ReferenceImage := { ref_image : Image; referenceType : string }.

(** The [config] object; [referenceImages] is absent in single-image mode. *)
Record Config := {
  numberOfVideos : nat;
  resolution : string;
  aspectRatio : AspectRatio;
  referenceImages : option (list ReferenceImage);
}.

(** The argument of [ai.models.generateVideos]. *)
Record Request := {
  model : string;
  prompt : string;
  image : option Image;
  config : Config;
}.

Global Instance Image_eq_dec : EqDecision Image.
Proof. solve_decision. Defined.
Global Instance ReferenceImage_eq_dec : EqDecision ReferenceImage.
Proof. solve_decision. Defined.
Global Instance Config_eq_dec : EqDecision Config.
Proof. solve_decision. Defined.
Global Instance Request_eq_dec : EqDecision Request.
Proof. solve_decision. Defined.

(** The operation handle returned by the backend. *)
Record Video := { uri : option string; filterReason : option string }.
Record GeneratedVideo := { video : option Video }.
Record ErrorPayload := { message : option string }.
Record Response := {
  generatedVideos : option (list GeneratedVideo);
  error : option ErrorPayload;
}.
Record Operation := { done : bool; response : option Response }.

(** The part of a [fetch] response that [generateVideo] reads. *)
Record DownloadResponse := {
  ok : bool;
  statusText : string;
  blob : Outcome string;
}.

Definition LOADING_MESSAGES : list string := [
  "Recalling the details of your memory...";
  "Gathering the echoes of the past...";
  "Focusing on the feeling of the moment...";
  "Weaving motion into your photograph...";
  "Rendering the memory, this can take a moment...";
  "Bringing your memory to life..."
].

(** ** Request shaping (lines 22-62 of [geminiService.ts]) *)

Definition base_config (aspectRatio : AspectRatio) : Config :=
  {| numberOfVideos := 1; resolution := "720p"; aspectRatio := aspectRatio;
     referenceImages := None |}.

Definition toReferenceImage (img : ImageInput) : ReferenceImage :=
  {| ref_image := {| imageBytes := data img; image_mimeType := mimeType img |};
     referenceType := "ASSET" |}.

(** The object spread [{ ...config, referenceImages: referenceImages }]. *)
Definition with_referenceImages (c : Config) (refs : list ReferenceImage)
    : Config :=
  {| numberOfVideos := numberOfVideos c; resolution := resolution c;
     aspectRatio := aspectRatio c; referenceImages := Some refs |}.

(** The request handed to [ai.models.generateVideos], or the exception
    raised while its argument is evaluated ([images[0].data] on an empty
    array reads a property of [undefined]). *)
Definition buildRequest (images : list ImageInput) (prompt : string)
    (aspectRatio : AspectRatio) : Exn + Request :=
  let config := base_config aspectRatio in
  if decide (1 < length images) then
    let referenceImages := toReferenceImage <$> images in
    inr {| model := "veo-3.1-generate-preview";
           prompt := prompt;
           image := None;
           config := with_referenceImages config referenceImages |}
  else
    match images !! 0 with
    | None => inl (TypeError_undefined "data")
    | Some img =>
        inr {| model := "veo-3.1-fast-generate-preview";
               prompt := prompt;
               image := Some {| imageBytes := data img;
                                image_mimeType := mimeType img |};
               config := config |}
    end.

(** ** Effects: the trace of observable calls *)

(** What [generateVideo] does to the outside world, in program order.  The
    payload of [console.error] is not recorded, only its label. *)
Inductive Event :=
| GenerateVideos (req : Request)
| SetLoadingMessage (msg : option string)
| Sleep (ms : nat)
| GetVideosOperation (operation : Operation)
| ConsoleError (label : string)
| Fetch (url : string)
| ReadBlob
| CreateObjectURL (content : string).

(** The replies of the outside world: the backend's answer to a submission,
    its successive answers to the status checks (none left means the check
    never settles), the answer to a [fetch], and the handle
    [URL.createObjectURL] gives to a blob. *)
Record Env := {
  generateVideos : Request → Outcome Operation;
  getVideosOperation : list (Outcome Operation);
  fetch : string → Outcome DownloadResponse;
  createObjectURL : string → string;
}.

(** An asynchronous computation: it extends the trace and settles (or not). *)
Definition M (A : Type) : Type := list Event → Outcome A * list Event.

Global Instance M_ret : MRet M := λ A a t, (Resolved a, t).

Global Instance M_bind : MBind M := λ A B f m t,
  match m t with
  | (Resolved a, t') => f a t'
  | (Rejected e, t') => (Rejected e, t')
  | (Pending, t') => (Pending, t')
  end.

Definition throw {A} (e : Exn) : M A := λ t, (Rejected e, t).

(** [try m catch (e) { h e }] *)
Definition try_catch {A} (m : M A) (h : Exn → M A) : M A := λ t,
  match m t with
  | (Rejected e, t') => h e t'
  | r => r
  end.

(** A call with an observable effect and nothing to wait for. *)
Definition emit (ev : Event) : M unit := λ t, (Resolved (), t ++ [ev]).

(** [await] of an external call: the call is observed, then the promise
    settles as the outside world decides. *)
Definition await {A} (ev : Event) (reply : Outcome A) : M A :=
  λ t, (reply, t ++ [ev]).

Definition outcome {A} (r : Outcome A * list Event) : Outcome A := r.1.
Definition trace {A} (r : Outcome A * list Event) : list Event := r.2.

(** ** The poll loop (lines 64-81) *)

(** The variables the loop updates. *)
Record LoopState := MkLoopState { operation : Operation; messageIndex : nat }.

(** One pass through the loop body, [reply] being the answer to this pass's
    status check. *)
Definition pollIteration (reply : Outcome Operation) (s : LoopState)
    : M LoopState :=
  emit (Sleep 5000);;
  let messageIndex := (messageIndex s + 1) `mod` length LOADING_MESSAGES in
  emit (SetLoadingMessage (LOADING_MESSAGES !! messageIndex));;
  operation ← try_catch
    (await (GetVideosOperation (operation s)) reply)
    (λ e, emit (ConsoleError "Polling failed:");; throw e);
  mret {| operation := operation; messageIndex := messageIndex |}.

(** [while (!operation.done) { ... }], the recursion following the replies
    the backend still has to give. *)
Fixpoint pollLoop (replies : list (Outcome Operation)) (s : LoopState)
    : M LoopState :=
  if done (operation s) then mret s
  else match replies with
       | [] => pollIteration Pending s
       | reply :: replies => pollIteration reply s ≫= pollLoop replies
       end.

(** ** Result resolution (lines 83-109) *)

Definition resolveDownloadLink (operation : Operation) : M string :=
  let response : option Response := response operation in
  let generatedVideo : option GeneratedVideo :=
    response ?. generatedVideos ?. (.!! 0) in
  let downloadLink : option string := generatedVideo ?. video ?. uri in
  match truthy_string downloadLink with
  | Some downloadLink => mret downloadLink
  | None =>
      emit (ConsoleError "Video generation response:");;
      let filterReason : option string :=
        generatedVideo ?. video ?. filterReason in
      match truthy_string filterReason with
      | Some filterReason =>
          throw (Error ("Video was filtered by safety policy: "
                        +:+ filterReason +:+ ". Try a different prompt."))
      | None =>
          let errorMessage : option string :=
            response ?. error ?. message in
          match truthy_string errorMessage with
          | Some errorMessage =>
              throw (Error ("Video generation failed: " +:+ errorMessage))
          | None =>
              match response ?. generatedVideos with
              | None | Some [] =>
                  throw (Error "Video generation completed, but no video was returned. The content may have been filtered by safety policies. Try a different prompt or image.")
              | Some (_ :: _) =>
                  throw (Error "Video generation completed, but no download link was found. Check the browser console for details.")
              end
          end
      end
  end.

(** ** Result fetch (lines 111-118) *)

Definition downloadVideo (env : Env) (downloadLink apiKey : string)
    : M string :=
  emit (SetLoadingMessage (Some "Fetching generated video..."));;
  let url := downloadLink +:+ "&key=" +:+ apiKey in
  downloadResponse ← await (Fetch url) (fetch env url);
  if negb (ok downloadResponse) then
    throw (Error ("Failed to download video: " +:+ statusText downloadResponse))
  else
    videoBlob ← await ReadBlob (blob downloadResponse);
    emit (CreateObjectURL videoBlob);;
    mret (createObjectURL env videoBlob).

(** ** [generateVideo] *)

Definition generateVideo (env : Env) (images : list ImageInput)
    (prompt : string) (aspectRatio : AspectRatio) (apiKey : string)
    : M string :=
  match buildRequest images prompt aspectRatio with
  | inl e => throw e
  | inr req =>
      operation ← await (GenerateVideos req) (generateVideos env req);
      let messageIndex := 0 in
      emit (SetLoadingMessage (LOADING_MESSAGES !! messageIndex));;
      '(MkLoopState operation _) ←
        pollLoop (getVideosOperation env) (MkLoopState operation messageIndex);
      downloadLink ← resolveDownloadLink operation;
      downloadVideo env downloadLink apiKey
  end.

(** ** The resolver's classification, in the words of the specification *)

(** The classified result of a completed operation (spec, section 3). *)
Inductive Resolution :=
| Success (locator : string)
| SafetyFiltered (reason : string)
| UpstreamError (upstream_message : string)
| EmptyResult
| MalformedResponse.

Global Instance Resolution_eq_dec : EqDecision Resolution.
Proof. solve_decision. Defined.

(** How each class reaches the caller of [generateVideo]: the locator is
    handed on, a failure is thrown as an [Error] with the class's message. *)
Definition resolution_outcome (r : Resolution) : Outcome string :=
  match r with
  | Success locator => Resolved locator
  | SafetyFiltered reason =>
      Rejected (Error ("Video was filtered by safety policy: "
                       +:+ reason +:+ ". Try a different prompt."))
  | UpstreamError m => Rejected (Error ("Video generation failed: " +:+ m))
  | EmptyResult =>
      Rejected (Error "Video generation completed, but no video was returned. The content may have been filtered by safety policies. Try a different prompt or image.")
  | MalformedResponse =>
      Rejected (Error "Video generation completed, but no download link was found. Check the browser console for details.")
  end.

Definition entries (op : Operation) : list GeneratedVideo :=
  default [] (response op ?. generatedVideos).

(** The non-empty result locator of an entry, if it has one. *)
Definition locator_of (g : GeneratedVideo) : option string :=
  truthy_string (video g ?. uri).

(** The non-empty safety-filter reason of an entry, if it has one. *)
Definition filter_reason_of (g : GeneratedVideo) : option string :=
  truthy_string (video g ?. filterReason).

(** The non-empty top-level error message of the response, if any. *)
Definition top_level_error (op : Operation) : option string :=
  truthy_string (response op ?. error ?. message).

(** Which entry a clause of the classification looks at. *)
Definition pick_first {A} (f : GeneratedVideo → option A)
    (l : list GeneratedVideo) : option A :=
  head l ≫= f.

Definition pick_any {A} (f : GeneratedVideo → option A)
    (l : list GeneratedVideo) : option A :=
  head (omap f l).

(** The five ordered cases, first match wins. *)
Definition classify_with
    (pick : (GeneratedVideo → option string) → list GeneratedVideo
            → option string)
    (op : Operation) : Resolution :=
  match pick locator_of (entries op) with
  | Some locator => Success locator
  | None =>
      match pick filter_reason_of (entries op) with
      | Some reason => SafetyFiltered reason
      | None =>
          match top_level_error op with
          | Some m => UpstreamError m
          | None =>
              match entries op with
              | [] => EmptyResult
              | _ :: _ => MalformedResponse
              end
          end
      end
  end.

(** Cases (1) and (2) decided by the first generated-video entry. *)
Definition classify : Operation → Resolution := classify_with (@pick_first _).

(** Cases (1) and (2) decided by any generated-video entry of the list, the
    reading "at least one generated-video entry" of section 4.3. *)
Definition classify_any_entry : Operation → Resolution :=
  classify_with (@pick_any _).

(** Number of status checks recorded in a trace. *)
Definition is_status_check (ev : Event) : bool :=
  match ev with GetVideosOperation _ => true | _ => false end.

Definition is_fetch (ev : Event) : bool :=
  match ev with Fetch _ => true | _ => false end.

Definition is_handle_creation (ev : Event) : bool :=
  match ev with ReadBlob | CreateObjectURL _ => true | _ => false end.

Definition status_checks (t : list Event) : nat :=
  length (filter (λ ev, is_status_check ev = true) t).

(** What [n] passes through the loop body record, [prev] being the handle
    the first pass re-submits, [ops] the answers received and [i] the index
    before the first pass. *)
Fixpoint poll_events (i : nat) (prev : Operation) (ops : list Operation)
    : list Event :=
  match ops with
  | [] => []
  | op :: ops =>
      let i' := (i + 1) `mod` length LOADING_MESSAGES in
      [Sleep 5000; SetLoadingMessage (LOADING_MESSAGES !! i');
       GetVideosOperation prev] ++ poll_events i' op ops
  end.

(** The loading messages a trace shows, in order. *)
Definition loading_messages (t : list Event) : list (option string) :=
  omap (λ ev, match ev with SetLoadingMessage m => Some m | _ => None end) t.

(** The value of the loop's [messageIndex] when the loop has ended. *)
Definition final_index (r : Outcome LoopState * list Event) : option nat :=
  match r.1 with Resolved s => Some (messageIndex s) | _ => None end.

(** The two request shapes of the data model. *)
Inductive Shape := PrimaryImage | ReferenceAssets.

Definition shape_of (req : Request) : option Shape :=
  match image req, referenceImages (config req) with
  | Some _, None => Some PrimaryImage
  | None, Some _ => Some ReferenceAssets
  | _, _ => None
  end.

(** Every computation only appends to the trace it is given, and neither
    what it appends nor how it settles depends on what was recorded
    before. *)
Definition Framed {A} (m : M A) : Prop :=
  ∀ t, m t = ((m []).1, t ++ (m []).2).

(** Resolving the same completed operation [n] times in a row: the
    outcomes, in order, and the trace left behind. *)
Fixpoint resolve_repeatedly (n : nat) (op : Operation) (t : list Event)
    : list (Outcome string) * list Event :=
  match n with
  | 0 => ([], t)
  | S n =>
      let r := resolveDownloadLink op t in
      let rs := resolve_repeatedly n op r.2 in
      (r.1 :: rs.1, rs.2)
  end.

(** What the resolver logs for each class. *)
Definition resolver_log (r : Resolution) : list Event :=
  match r with
  | Success _ => []
  | _ => [ConsoleError "Video generation response:"]
  end.

(** The events the poll loop can produce. *)
Definition loop_event (ev : Event) : bool :=
  match ev with
  | Sleep _ | SetLoadingMessage _ | GetVideosOperation _ | ConsoleError _ =>
      true
  | _ => false
  end.

(** ** The upload form ([VideoGeneratorForm.tsx]) *)

Module VideoGeneratorForm.

(** The fields of a browser [File] the form reads. *)
Record File := { name : string; size : nat }.

(** The component's [useState] cells. *)
Record FormState := {
  imageFiles : list File;
  imagePreviews : list string;
  prompt : string;
  aspectRatio : AspectRatio;
  error : option string;
  suggestions : list string;
  isSuggesting : bool;
}.

Definition initial : FormState :=
  {| imageFiles := []; imagePreviews := [];
     prompt := "Bring this memory to life with gentle, nostalgic motion.";
     aspectRatio := Ratio_16_9; error := None; suggestions := [];
     isSuggesting := false |}.

Definition setError (e : option string) (st : FormState) : FormState :=
  {| imageFiles := imageFiles st; imagePreviews := imagePreviews st;
     prompt := prompt st; aspectRatio := aspectRatio st; error := e;
     suggestions := suggestions st; isSuggesting := isSuggesting st |}.

Definition setSuggestions (l : list string) (st : FormState) : FormState :=
  {| imageFiles := imageFiles st; imagePreviews := imagePreviews st;
     prompt := prompt st; aspectRatio := aspectRatio st; error := error st;
     suggestions := l; isSuggesting := isSuggesting st |}.

Definition setIsSuggesting (b : bool) (st : FormState) : FormState :=
  {| imageFiles := imageFiles st; imagePreviews := imagePreviews st;
     prompt := prompt st; aspectRatio := aspectRatio st; error := error st;
     suggestions := suggestions st; isSuggesting := b |}.

Definition setImages (files : list File) (previews : list string)
    (st : FormState) : FormState :=
  {| imageFiles := files; imagePreviews := previews;
     prompt := prompt st; aspectRatio := aspectRatio st; error := error st;
     suggestions := suggestions st; isSuggesting := isSuggesting st |}.

Definition setPrompt (p : string) (st : FormState) : FormState :=
  {| imageFiles := imageFiles st; imagePreviews := imagePreviews st;
     prompt := p; aspectRatio := aspectRatio st; error := error st;
     suggestions := suggestions st; isSuggesting := isSuggesting st |}.

Definition setAspectRatio (r : AspectRatio) (st : FormState) : FormState :=
  {| imageFiles := imageFiles st; imagePreviews := imagePreviews st;
     prompt := prompt st; aspectRatio := r; error := error st;
     suggestions := suggestions st; isSuggesting := isSuggesting st |}.

(** A call of the [onGenerate] prop. *)
Inductive Call :=
| OnGenerate (images : list ImageInput) (prompt : string)
             (aspectRatio : AspectRatio).

Definition dquote : string := String (Ascii.ascii_of_nat 34) EmptyString.

(** [Promise.all(files.map(convert))]: all the parts, or the first
    failure. *)
Fixpoint promise_all (convert : File → Exn + ImageInput) (files : list File)
    : Exn + list ImageInput :=
  match files with
  | [] => inr []
  | f :: files =>
      match convert f with
      | inl e => inl e
      | inr part =>
          match promise_all convert files with
          | inl e => inl e
          | inr parts => inr (part :: parts)
          end
      end
  end.

(** [array.filter((_, i) => i !== index)] *)
Definition remove_index {A} (index : nat) (l : list A) : list A :=
  snd <$> filter (λ p, p.1 ≠ index) (imap (λ i x, (i, x)) l).

Section Handlers.
(** Collaborators that are not part of the sources: [URL.createObjectURL]
    on a file, [fileToGenerativePart] of [../utils/fileUtils], and the
    prompt suggestion service. *)
Variable objectURL : File → string.
Variable fileToGenerativePart : File → Exn + ImageInput.
Variable suggestPrompts : ImageInput → Exn + list string.

(** [handleFileChange]; [files] is [event.target.files], [None] when
    null. *)
Definition handleFileChange (files : option (list File))
    (st : FormState) : FormState :=
  match files with
  | Some ((_ :: _) as fileArray) =>
      if decide (3 < length (imageFiles st) + length fileArray) then
        setError (Some "You can upload a maximum of 3 images.") st
      else
        match List.find (λ file, bool_decide (10 * 1024 * 1024 < size file))
                        fileArray with
        | Some oversizedFile =>
            setError (Some ("File " +:+ dquote +:+ name oversizedFile
                            +:+ dquote +:+ " exceeds 10MB limit.")) st
        | None =>
            let st := setError None st in
            let newFiles := imageFiles st ++ fileArray in
            let newPreviews := objectURL <$> fileArray in
            let st := setImages newFiles (imagePreviews st ++ newPreviews)
                                st in
            setSuggestions [] st
        end
  | _ => st
  end.

Definition handleRemoveImage (index : nat) (st : FormState) : FormState :=
  let newFiles := remove_index index (imageFiles st) in
  let newPreviews := remove_index index (imagePreviews st) in
  setSuggestions [] (setImages newFiles newPreviews st).

Definition handleSuggestPrompts (st : FormState) : FormState :=
  match imageFiles st with
  | [] => st
  | file0 :: _ =>
      let st := setSuggestions [] (setError None (setIsSuggesting true st)) in
      let catch e :=
        setError (Some ("Failed to get suggestions: " +:+ exn_message e))
                 st in
      let st :=
        match fileToGenerativePart file0 with
        | inr imagePart =>
            match suggestPrompts imagePart with
            | inr newSuggestions => setSuggestions newSuggestions st
            | inl e => catch e
            end
        | inl e => catch e
        end in
      setIsSuggesting false st
  end.

(** [handleSubmit]: the new state and the calls of [onGenerate] made. *)
Definition handleSubmit (st : FormState) : FormState * list Call :=
  if bool_decide (length (imageFiles st) = 0) || bool_decide (prompt st = "")
  then
    (setError (Some "Please provide at least one image and a prompt.") st,
     [])
  else
    let st := setError None st in
    match promise_all fileToGenerativePart (imageFiles st) with
    | inr imageParts =>
        (st, [OnGenerate imageParts (prompt st) (aspectRatio st)])
    | inl e =>
        (setError (Some ("Failed to process images: " +:+ exn_message e))
                  st, [])
    end.

(** What the user can do with the form. *)
Inductive Action :=
| FileChange (files : option (list File))
| RemoveImage (index : nat)
| PromptChange (p : string)
| AspectRatioChange (r : AspectRatio)
| SuggestPrompts
| Submit.

Definition step (a : Action) (st : FormState) : FormState * list Call :=
  match a with
  | FileChange files => (handleFileChange files st, [])
  | RemoveImage index => (handleRemoveImage index st, [])
  | PromptChange p => (setPrompt p st, [])
  | AspectRatioChange r => (setAspectRatio r st, [])
  | SuggestPrompts => (handleSuggestPrompts st, [])
  | Submit => handleSubmit st
  end.

(** A session: the state reached and every call of [onGenerate] made on
    the way, in order. *)
Fixpoint run (actions : list Action) (st : FormState)
    : FormState * list Call :=
  match actions with
  | [] => (st, [])
  | a :: actions =>
      let '(st', calls) := step a st in
      let '(st'', calls') := run actions st' in
      (st'', calls ++ calls')
  end.
End Handlers.

End VideoGeneratorForm.

(** ** The password endpoint ([api/verify-password.ts]) *)

Module VerifyPassword.

(** JSON-like values: what a request body can be and what a reply
    carries. *)
#[local] Set Warnings "-register-all".
Inductive JsValue :=
| Undefined
| Null
| Bool (b : bool)
| Number (n : Z)
| Str (s : string)
| Object (fields : gmap string JsValue).

(** [process.env]: the variables that are set. *)
Abbreviation ProcessEnv := (gmap string string).

Record VercelRequest := { method : string; body : JsValue }.

(** What [res.status(code).json(payload)] sends. *)
Record VercelResponse := { statusCode : nat; json : JsValue }.

(** [const { password } = req.body]: destructuring [undefined] or [null]
    throws, a primitive has no such property. *)
Definition destructure_password (body : JsValue) : Exn + JsValue :=
  match body with
  | Undefined =>
      inl (MkExn "TypeError" "Cannot destructure property 'password' of 'req.body' as it is undefined.")
  | Null =>
      inl (MkExn "TypeError" "Cannot destructure property 'password' of 'req.body' as it is null.")
  | Object fields => inr (default Undefined (fields !! "password"))
  | _ => inr Undefined
  end.

(** [!password || typeof password !== 'string'] fails exactly on a
    non-empty string. *)
Definition password_string (password : JsValue) : option string :=
  match password with
  | Str s => truthy_string (Some s)
  | _ => None
  end.

Definition error_json (msg : string) : JsValue :=
  Object {[ "error" := Str msg ]}.

(** The handler, threading [process.env]: the reply (or the exception
    that escapes) and the environment it leaves behind. *)
Definition handler (req : VercelRequest) (env : ProcessEnv)
    : (Exn + VercelResponse) * ProcessEnv :=
  if decide (method req ≠ "POST") then
    (inr {| statusCode := 405; json := error_json "Method not allowed" |},
     env)
  else
    match destructure_password (body req) with
    | inl e => (inl e, env)
    | inr password =>
        match password_string password with
        | None =>
            (inr {| statusCode := 400;
                    json := error_json "Password is required" |}, env)
        | Some password =>
            let accessPassword := env !! "ACCESS_PASSWORD" in
            let apiKey := env !! "GEMINI_API_KEY" in
            match truthy_string accessPassword, truthy_string apiKey with
            | Some accessPassword, Some apiKey =>
                if decide (password ≠ accessPassword) then
                  (inr {| statusCode := 401;
                          json := error_json "Invalid password" |}, env)
                else
                  (inr {| statusCode := 200;
                          json := Object {[ "apiKey" := Str apiKey ]} |},
                   env)
            | _, _ =>
                (inr {| statusCode := 500;
                        json := error_json "Server is not configured. Set ACCESS_PASSWORD and GEMINI_API_KEY in Vercel environment variables." |},
                 env)
            end
        end
    end.

(** A server answering a sequence of requests, each handled in the
    environment the previous one left. *)
Fixpoint serve (reqs : list VercelRequest) (env : ProcessEnv)
    : list (Exn + VercelResponse) * ProcessEnv :=
  match reqs with
  | [] => ([], env)
  | req :: reqs =>
      let '(r, env') := handler req env in
      let '(rs, env'') := serve reqs env' in
      (r :: rs, env'')
  end.

(** Both server-side values are present (and not empty). *)
Definition configured (env : ProcessEnv) : Prop :=
  is_Some (truthy_string (env !! "ACCESS_PASSWORD")) ∧
  is_Some (truthy_string (env !! "GEMINI_API_KEY")).

(** The password a request supplies, if its body is an object with one. *)
Definition supplied_password (body : JsValue) : JsValue :=
  match body with
  | Object fields => default Undefined (fields !! "password")
  | _ => Undefined
  end.

(** The status the endpoint would answer with if, as the specification
    words it, every request were first checked against the configuration
    (500), then for a missing or non-string password (400), then for the
    exact match (401, or 200 with the key). *)
Definition claimed_status (req : VercelRequest) (env : ProcessEnv) : nat :=
  match truthy_string (env !! "ACCESS_PASSWORD"),
        truthy_string (env !! "GEMINI_API_KEY") with
  | Some accessPassword, Some _ =>
      match supplied_password (body req) with
      | Str password =>
          if decide (password = accessPassword) then 200 else 401
      | _ => 400
      end
  | _, _ => 500
  end.

Definition status_of (r : Exn + VercelResponse) : option nat :=
  match r with inr res => Some (statusCode res) | inl _ => None end.

End VerifyPassword.

(** ** Measures of a trace *)

(** The time spent in [setTimeout] waits, in milliseconds. *)
Definition slept (t : list Event) : nat :=
  sum_list_with (λ ev, match ev with Sleep ms => ms | _ => 0 end) t.

(** The URLs fetched. *)
Definition fetched (t : list Event) : list string :=
  omap (λ ev, match ev with Fetch url => Some url | _ => None end) t.

(** ** JSON values ([JSON.parse], response bodies) *)

Module Json.

(** A value as JavaScript sees it after [JSON.parse] or [response.json()],
    with [undefined] for what a property read can give.  Numbers are
    integers: this code only tests a number for truthiness or prints it. *)
#[local] Set Warnings "-register-all".
Inductive Value :=
| Undefined
| Null
| Bool (b : bool)
| Number (n : Z)
| Str (s : string)
| Array (items : list Value)
| Object (fields : gmap string Value).

(** [!!v] *)
Definition truthy (v : Value) : bool :=
  match v with
  | Undefined | Null | Bool false | Number 0 => false
  | Str s => bool_decide (s ≠ "")
  | _ => true
  end.

(** The [TypeError] raised by reading property [prop] of [null]. *)
Definition TypeError_null (prop : string) : Exn :=
  MkExn "TypeError"
        ("Cannot read properties of null (reading '" +:+ prop +:+ "')").

(** The read [v.key] for a key that no built-in prototype defines (as
    [suggestions], [error], [message], [id], [webViewLink]): it throws on
    [undefined] and [null], and finds nothing on a primitive or an array. *)
Definition get (key : string) (v : Value) : Exn + Value :=
  match v with
  | Undefined => inl (TypeError_undefined key)
  | Null => inl (TypeError_null key)
  | Object fields => inr (default Undefined (fields !! key))
  | _ => inr Undefined
  end.

End Json.

(** ** [suggestPrompts] (lines 121-171 of [geminiService.ts]) *)

Section SuggestPrompts.
(** [String.prototype.trim] and [JSON.parse], which the JavaScript engine
    provides. *)
Variable trim : string → string.
Variable JSON_parse : string → Exn + Json.Value.

(** The body of the [try] block; [reply] is how [ai.models.generateContent]
    settles, with the [text] of the response ([undefined] when it has
    none). *)
Definition suggestPrompts_try (reply : Outcome (option string))
    : Outcome (list Json.Value) :=
  match reply with
  | Resolved text =>
      match text with
      | None => Rejected (TypeError_undefined "trim")
      | Some text =>
          let jsonStr := trim text in
          match JSON_parse jsonStr with
          | inl e => Rejected e
          | inr result =>
              match Json.get "suggestions" result with
              | inl e => Rejected e
              | inr (Json.Array suggestions) => Resolved (take 3 suggestions)
              | inr _ => Resolved []
              end
          end
      end
  | Rejected e => Rejected e
  | Pending => Pending
  end.

(** [suggestPrompts]: whatever is thrown inside the [try] block is replaced
    by one error. *)
Definition suggestPrompts (reply : Outcome (option string))
    : Outcome (list Json.Value) :=
  match suggestPrompts_try reply with
  | Rejected _ => Rejected (Error "Failed to generate prompt suggestions.")
  | r => r
  end.
End SuggestPrompts.

(** ** The application shell ([App.tsx]) *)

(** [s.includes(needle)] *)
Fixpoint includes (needle s : string) : bool :=
  if String.prefix needle s then true
  else match s with
       | EmptyString => false
       | String _ s' => includes needle s'
       end.

Module App.

(** The [useState] cells of [App]. *)
Record AppState := {
  apiKeySelected : bool;
  isCheckingApiKey : bool;
  videoUrl : option string;
  isGenerating : bool;
  loadingMessage : option string;
  error : option string;
  isSharing : bool;
  shareUrl : option string;
  shareError : option string;
}.

Definition setApiKeySelected (b : bool) (st : AppState) : AppState :=
  {| apiKeySelected := b; isCheckingApiKey := isCheckingApiKey st;
     videoUrl := videoUrl st; isGenerating := isGenerating st;
     loadingMessage := loadingMessage st; error := error st;
     isSharing := isSharing st; shareUrl := shareUrl st;
     shareError := shareError st |}.

Definition setVideoUrl (url : option string) (st : AppState) : AppState :=
  {| apiKeySelected := apiKeySelected st;
     isCheckingApiKey := isCheckingApiKey st;
     videoUrl := url; isGenerating := isGenerating st;
     loadingMessage := loadingMessage st; error := error st;
     isSharing := isSharing st; shareUrl := shareUrl st;
     shareError := shareError st |}.

Definition setIsGenerating (b : bool) (st : AppState) : AppState :=
  {| apiKeySelected := apiKeySelected st;
     isCheckingApiKey := isCheckingApiKey st;
     videoUrl := videoUrl st; isGenerating := b;
     loadingMessage := loadingMessage st; error := error st;
     isSharing := isSharing st; shareUrl := shareUrl st;
     shareError := shareError st |}.

Definition setLoadingMessage (m : option string) (st : AppState) : AppState :=
  {| apiKeySelected := apiKeySelected st;
     isCheckingApiKey := isCheckingApiKey st;
     videoUrl := videoUrl st; isGenerating := isGenerating st;
     loadingMessage := m; error := error st;
     isSharing := isSharing st; shareUrl := shareUrl st;
     shareError := shareError st |}.

Definition setError (e : option string) (st : AppState) : AppState :=
  {| apiKeySelected := apiKeySelected st;
     isCheckingApiKey := isCheckingApiKey st;
     videoUrl := videoUrl st; isGenerating := isGenerating st;
     loadingMessage := loadingMessage st; error := e;
     isSharing := isSharing st; shareUrl := shareUrl st;
     shareError := shareError st |}.

Definition setShareUrl (url : option string) (st : AppState) : AppState :=
  {| apiKeySelected := apiKeySelected st;
     isCheckingApiKey := isCheckingApiKey st;
     videoUrl := videoUrl st; isGenerating := isGenerating st;
     loadingMessage := loadingMessage st; error := error st;
     isSharing := isSharing st; shareUrl := url;
     shareError := shareError st |}.

Definition setShareError (e : option string) (st : AppState) : AppState :=
  {| apiKeySelected := apiKeySelected st;
     isCheckingApiKey := isCheckingApiKey st;
     videoUrl := videoUrl st; isGenerating := isGenerating st;
     loadingMessage := loadingMessage st; error := error st;
     isSharing := isSharing st; shareUrl := shareUrl st;
     shareError := e |}.

Definition handleGenerationStart (st : AppState) : AppState :=
  setShareError None
    (setShareUrl None (setError None (setVideoUrl None
       (setIsGenerating true st)))).

(** The [setLoadingMessage] calls a run of [generateVideo] makes, applied
    in order. *)
Definition show_messages (t : list Event) (st : AppState) : AppState :=
  foldl (λ st ev, match ev with
                  | SetLoadingMessage m => setLoadingMessage m st
                  | _ => st
                  end) st t.

(** [handleGeneration]; [run] is how the call of [generateVideo] went: how it
    settled and what it did. *)
Definition handleGeneration (run : Outcome string * list Event)
    (st : AppState) : AppState :=
  let st := handleGenerationStart st in
  let st := show_messages run.2 st in
  match run.1 with
  | Resolved url => setIsGenerating false (setVideoUrl (Some url) st)
  | Rejected err =>
      let st :=
        if includes "Requested entity was not found" (exn_message err) then
          setApiKeySelected false
            (setError (Some "API Key validation failed. Please select a valid API key.") st)
        else
          setError (Some ("An error occurred during video generation: "
                          +:+ exn_message err)) st in
      setIsGenerating false st
  | Pending => st
  end.

End App.

(** ** The credential form ([ApiKeySelector.tsx], lines 1-165) *)

Module ApiKeySelector.

Inductive Mode := Choose | ApiKey | Password.

(** The [useState] cells; [localError] holds whatever was last passed to
    [setLocalError] ([JsValue.Null] for [null]). *)
Record State := {
  mode : Mode;
  apiKeyInput : string;
  passwordInput : string;
  loading : bool;
  localError : VerifyPassword.JsValue;
}.

Definition setLoading (b : bool) (st : State) : State :=
  {| mode := mode st; apiKeyInput := apiKeyInput st;
     passwordInput := passwordInput st; loading := b;
     localError := localError st |}.

Definition setLocalError (e : VerifyPassword.JsValue) (st : State) : State :=
  {| mode := mode st; apiKeyInput := apiKeyInput st;
     passwordInput := passwordInput st; loading := loading st;
     localError := e |}.

(** A call of the [onApiKeyReady] prop. *)
Inductive Call := OnApiKeyReady (key : VerifyPassword.JsValue).

(** What the handler reads of the response to its [fetch]. *)
Record HttpReply := { ok : bool; json : Outcome VerifyPassword.JsValue }.

(** [!!v] *)
Definition truthy (v : VerifyPassword.JsValue) : bool :=
  match v with
  | VerifyPassword.Undefined | VerifyPassword.Null
  | VerifyPassword.Bool false | VerifyPassword.Number 0 => false
  | VerifyPassword.Str s => bool_decide (s ≠ "")
  | _ => true
  end.

(** The reads [data.error] and [data.apiKey]. *)
Definition read (key : string) (data : VerifyPassword.JsValue)
    : Exn + VerifyPassword.JsValue :=
  match data with
  | VerifyPassword.Undefined => inl (TypeError_undefined key)
  | VerifyPassword.Null => inl (Json.TypeError_null key)
  | VerifyPassword.Object fields =>
      inr (default VerifyPassword.Undefined (fields !! key))
  | _ => inr VerifyPassword.Undefined
  end.

Section Handlers.
(** [String.prototype.trim]. *)
Variable trim : string → string.

Definition handleApiKeySubmit (st : State) : State * list Call :=
  let key := trim (apiKeyInput st) in
  if decide (key = "") then
    (setLocalError (VerifyPassword.Str "Please enter your API key.") st, [])
  else (st, [OnApiKeyReady (VerifyPassword.Str key)]).

(** [handlePasswordSubmit]; [verify pw] is how the POST of
    [{ password: pw }] to [/api/verify-password] settles. *)
Definition handlePasswordSubmit (verify : string → Outcome HttpReply)
    (st : State) : State * list Call :=
  let pw := trim (passwordInput st) in
  if decide (pw = "") then
    (setLocalError (VerifyPassword.Str "Please enter the password.") st, [])
  else
    let st := setLocalError VerifyPassword.Null (setLoading true st) in
    let catch :=
      (setLoading false
         (setLocalError (VerifyPassword.Str "Failed to connect to the server.")
                        st), []) in
    match verify pw with
    | Pending => (st, [])
    | Rejected _ => catch
    | Resolved res =>
        match json res with
        | Pending => (st, [])
        | Rejected _ => catch
        | Resolved data =>
            if negb (ok res) then
              match read "error" data with
              | inl _ => catch
              | inr e =>
                  let shown :=
                    if truthy e then e
                    else VerifyPassword.Str "Verification failed." in
                  (setLoading false (setLocalError shown st), [])
              end
            else
              match read "apiKey" data with
              | inl _ => catch
              | inr key => (setLoading false st, [OnApiKeyReady key])
              end
        end
    end.
End Handlers.

(** The endpoint behind [/api/verify-password] as this form reaches it: the
    handler runs on the POST with the JSON body [{ password: pw }], and the
    form sees the status as [ok] (200 to 299) and the body as JSON.  Were
    the handler to throw, the hosting platform would answer with an error
    page that is not JSON. *)
Definition verify_password_endpoint (env : gmap string string) (pw : string)
    : Outcome HttpReply :=
  match (VerifyPassword.handler
           {| VerifyPassword.method := "POST";
              VerifyPassword.body :=
                VerifyPassword.Object
                  {[ "password" := VerifyPassword.Str pw ]} |} env).1 with
  | inr res =>
      Resolved
        {| ok := bool_decide (200 ≤ VerifyPassword.statusCode res < 300);
           json := Resolved (VerifyPassword.json res) |}
  | inl e => Resolved {| ok := false; json := Rejected e |}
  end.

End ApiKeySelector.

(** ** Sharing to Google Drive ([googleDriveService.ts]) *)

Module Drive.

(** What a [catch] receives: an instance of [Error], or any other value. *)
Inductive Thrown := ErrorObject (e : Exn) | OtherValue.

(** How a promise of this module settles. *)
Inductive Settled (A : Type) : Type :=
| Fulfilled (a : A)
| Failed (th : Thrown)
| Unsettled.
Global Arguments Fulfilled {A} a.
Global Arguments Failed {A} th.
Global Arguments Unsettled {A}.

(** The argument of the token client's callback. *)
Record TokenResponse := {
  access_token : string;
  token_error : option string;
  error_description : option string;
}.

(** What the Google Identity Services token client does: creating it
    throws, asking it for a token throws, it calls back, or it never does. *)
Inductive TokenClient :=
| InitThrows (th : Thrown)
| RequestThrows (th : Thrown)
| Responds (tokenResponse : TokenResponse)
| Silent.

(** What the code reads of a [fetch] response. *)
Record HttpResponse := { ok : bool; json : Settled Json.Value }.

(** The calls the module makes, in program order. *)
Inductive Call :=
| Wait (ms : nat)
| RequestAccessToken (client_id scope : string)
| FetchVideo (url : string)
| Upload (authorization name mimeType content : string)
| GrantPermission (url authorization role type : string)
| FetchMetadata (url authorization : string)
| ConsoleError (label : string).

(** The world around the module: [process.env] at load time, whether the
    Google Identity Services library is there at the call and 500 ms later,
    the token client, the blob behind a local video URL, the reading of
    [Date.now()] as the template prints it, the three Drive endpoints, and
    how a template prints a value that is not a string. *)
Record Env := {
  process_env : gmap string string;
  gsi_loaded : bool;
  gsi_loaded_later : bool;
  token_client : TokenClient;
  video_blob : string → Settled string;
  Date_now : string;
  upload_endpoint : Settled HttpResponse;
  permissions_endpoint : string → Settled HttpResponse;
  metadata_endpoint : string → Settled HttpResponse;
  to_string : Json.Value → string;
}.

Definition placeholder_client_id : string :=
  "YOUR_GOOGLE_CLIENT_ID.apps.googleusercontent.com".

Definition GOOGLE_CLIENT_ID (env : Env) : string :=
  default placeholder_client_id
          (truthy_string (process_env env !! "GOOGLE_CLIENT_ID")).

Definition GOOGLE_API_KEY (env : Env) : option string :=
  process_env env !! "API_KEY".

Definition DRIVE_SCOPE : string :=
  "https://www.googleapis.com/auth/drive.file".

(** [`${v}`] *)
Definition template (env : Env) (v : Json.Value) : string :=
  match v with
  | Json.Str s => s
  | _ => to_string env v
  end.

(** An asynchronous computation of this module. *)
Definition D (A : Type) : Type := list Call → Settled A * list Call.

Global Instance D_ret : MRet D := λ A a t, (Fulfilled a, t).

Global Instance D_bind : MBind D := λ A B f m t,
  match m t with
  | (Fulfilled a, t') => f a t'
  | (Failed th, t') => (Failed th, t')
  | (Unsettled, t') => (Unsettled, t')
  end.

Definition throw {A} (th : Thrown) : D A := λ t, (Failed th, t).

Definition throw_error {A} (message : string) : D A :=
  throw (ErrorObject (Error message)).

Definition try_catch {A} (m : D A) (h : Thrown → D A) : D A := λ t,
  match m t with
  | (Failed th, t') => h th t'
  | r => r
  end.

Definition call (c : Call) : D unit := λ t, (Fulfilled (), t ++ [c]).

Definition await {A} (c : Call) (reply : Settled A) : D A :=
  λ t, (reply, t ++ [c]).

(** [await p] for a promise that needs no further call. *)
Definition settle {A} (reply : Settled A) : D A := λ t, (reply, t).

(** A property read inside the [try] block. *)
Definition get (key : string) (v : Json.Value) : D Json.Value :=
  match Json.get key v with
  | inl e => throw (ErrorObject e)
  | inr x => mret x
  end.

Definition requestToken (env : Env) : D string :=
  match token_client env with
  | InitThrows th => throw th
  | RequestThrows th =>
      call (RequestAccessToken (GOOGLE_CLIENT_ID env) DRIVE_SCOPE);;
      throw th
  | Silent =>
      await (RequestAccessToken (GOOGLE_CLIENT_ID env) DRIVE_SCOPE) Unsettled
  | Responds tokenResponse =>
      call (RequestAccessToken (GOOGLE_CLIENT_ID env) DRIVE_SCOPE);;
      match truthy_string (token_error tokenResponse) with
      | Some _ =>
          throw_error
            (default "Unknown error during authentication."
                     (truthy_string (error_description tokenResponse)))
      | None => mret (access_token tokenResponse)
      end
  end.

Definition getAccessToken (env : Env) : D string :=
  if negb (gsi_loaded env) then
    call (Wait 500);;
    if negb (gsi_loaded_later env) then
      throw_error "Google Identity Services library not loaded."
    else requestToken env
  else requestToken env.

(** The body of the [try] block of [shareVideoToDrive]. *)
Definition share_steps (env : Env) (videoUrl apiKey : string)
    : D Json.Value :=
  accessToken ← getAccessToken env;
  videoBlob ← await (FetchVideo videoUrl) (video_blob env videoUrl);
  let name := "ai-memory-" +:+ Date_now env +:+ ".mp4" in
  let authorization := "Bearer " +:+ accessToken in
  uploadResponse ←
    await (Upload authorization name "video/mp4" videoBlob)
          (upload_endpoint env);
  if negb (ok uploadResponse) then
    errorData ← settle (json uploadResponse);
    e ← get "error" errorData;
    m ← get "message" e;
    throw_error ("Failed to upload file: " +:+ template env m)
  else
    fileData ← settle (json uploadResponse);
    fileId ← get "id" fileData;
    if negb (Json.truthy fileId) then
      throw_error "File ID not found after upload."
    else
      let permissionsUrl :=
        "https://www.googleapis.com/drive/v3/files/" +:+ template env fileId
        +:+ "/permissions?key=" +:+ apiKey in
      permissionResponse ←
        await (GrantPermission permissionsUrl authorization "writer" "anyone")
              (permissions_endpoint env permissionsUrl);
      if negb (ok permissionResponse) then
        errorData ← settle (json permissionResponse);
        e ← get "error" errorData;
        m ← get "message" e;
        throw_error ("Failed to set permissions: " +:+ template env m)
      else
        let metadataUrl :=
          "https://www.googleapis.com/drive/v3/files/" +:+ template env fileId
          +:+ "?fields=webViewLink&key=" +:+ apiKey in
        fileMetaResponse ←
          await (FetchMetadata metadataUrl authorization)
                (metadata_endpoint env metadataUrl);
        if negb (ok fileMetaResponse) then
          throw_error
            "Could not retrieve file metadata after setting permissions."
        else
          updatedFileData ← settle (json fileMetaResponse);
          webViewLink ← get "webViewLink" updatedFileData;
          if negb (Json.truthy webViewLink) then
            throw_error
              "Shareable link (webViewLink) not found in file metadata."
          else mret webViewLink.

Definition shareVideoToDrive (env : Env) (videoUrl : string) : D Json.Value :=
  if bool_decide (GOOGLE_CLIENT_ID env = "")
     || bool_decide (GOOGLE_CLIENT_ID env = placeholder_client_id) then
    throw_error "Google Client ID is not configured. Sharing is disabled."
  else
    match truthy_string (GOOGLE_API_KEY env) with
    | None => throw_error "API Key is not configured. Sharing is disabled."
    | Some apiKey =>
        try_catch (share_steps env videoUrl apiKey)
          (λ error,
             call (ConsoleError "Error sharing to Google Drive:");;
             match error with
             | ErrorObject e =>
                 throw_error ("Sharing failed: " +:+ exn_message e)
             | OtherValue =>
                 throw_error
                   "An unknown error occurred during the sharing process."
             end)
    end.

(** The calls made to the three Drive endpoints. *)
Definition is_drive_request (c : Call) : bool :=
  match c with
  | Upload _ _ _ _ | GrantPermission _ _ _ _ | FetchMetadata _ _ => true
  | _ => false
  end.

Definition drive_requests (t : list Call) : list Call :=
  filter (λ c, is_drive_request c = true) t.

End Drive.

(** ** Sample inputs

    Concrete images, operations, backends, form sessions and requests on
    which the properties below are instantiated. *)

Definition sample_image (d : string) : ImageInput :=
  {| data := d; mimeType := "image/png" |}.

(** An operation the backend is still working on. *)
Definition running_operation : Operation :=
  {| done := false; response := None |}.

(** A completed operation with one video at [locator]. *)
Definition finished_operation (locator : string) : Operation :=
  {| done := true;
     response := Some {| generatedVideos :=
                           Some [{| video := Some {| uri := Some locator;
                                                     filterReason := None |} |}];
                         error := None |} |}.

(** A backend that accepts every submission, answers the status checks
    with [replies] and serves every download. *)
Definition sample_env (replies : list (Outcome Operation)) : Env :=
  {| generateVideos := λ _, Resolved running_operation;
     getVideosOperation := replies;
     fetch := λ _, Resolved {| ok := true; statusText := "OK";
                               blob := Resolved "mp4" |};
     createObjectURL := λ content, "blob:" +:+ content |}.

(** A completed operation with an empty video list and no error. *)
Definition empty_list_operation : Operation :=
  {| done := true;
     response := Some {| generatedVideos := Some []; error := None |} |}.

(** A completed operation whose second entry only has a locator. *)
Definition two_entry_operation : Operation :=
  {| done := true;
     response :=
       Some {| generatedVideos :=
                 Some [{| video := Some {| uri := None;
                                           filterReason := None |} |};
                       {| video := Some {| uri := Some "https://v/2?alt=media";
                                           filterReason := None |} |}];
               error := None |} |}.

(** A completed operation whose video was filtered for [reason]. *)
Definition filtered_operation (reason : string) : Operation :=
  {| done := true;
     response :=
       Some {| generatedVideos :=
                 Some [{| video := Some {| uri := None;
                                           filterReason := Some reason |} |}];
               error := None |} |}.

(** A backend that completes at the first status check and then refuses
    the download. *)
Definition refusing_env : Env :=
  {| generateVideos := λ _, Resolved running_operation;
     getVideosOperation :=
       [Resolved (finished_operation "https://v/1?alt=media")];
     fetch := λ _, Resolved {| ok := false; statusText := "Forbidden";
                               blob := Resolved "" |};
     createObjectURL := λ content, "blob:" +:+ content |}.

Definition sample_file (n : string) : VideoGeneratorForm.File :=
  {| VideoGeneratorForm.name := n; VideoGeneratorForm.size := 1024 |}.

(** A session: submit with nothing selected, select two files, try to add
    two more, submit. *)
Definition sample_session
    : VideoGeneratorForm.FormState * list VideoGeneratorForm.Call :=
  VideoGeneratorForm.run
    (λ f, "blob:" +:+ VideoGeneratorForm.name f)
    (λ f, inr (sample_image (VideoGeneratorForm.name f)))
    (λ _, inr [])
    [VideoGeneratorForm.Submit;
     VideoGeneratorForm.FileChange
       (Some [sample_file "a.png"; sample_file "b.png"]);
     VideoGeneratorForm.FileChange
       (Some [sample_file "c.png"; sample_file "d.png"]);
     VideoGeneratorForm.Submit]
    VideoGeneratorForm.initial.

Definition configured_env : gmap string string :=
  {[ "ACCESS_PASSWORD" := "s3cret"; "GEMINI_API_KEY" := "AIza-key" ]}.

Definition password_body (pw : string) : VerifyPassword.JsValue :=
  VerifyPassword.Object {[ "password" := VerifyPassword.Str pw ]}.

(** An application that shows an earlier video and its share link. *)
Definition sample_app_state : App.AppState :=
  {| App.apiKeySelected := true; App.isCheckingApiKey := false;
     App.videoUrl := Some "blob:old"; App.isGenerating := false;
     App.loadingMessage := Some ""; App.error := None;
     App.isSharing := false; App.shareUrl := Some "https://drive/old";
     App.shareError := None |}.

(** A completed operation that reports a backend error [m]. *)
Definition failed_operation (m : string) : Operation :=
  {| done := true;
     response := Some {| generatedVideos := None;
                         error := Some {| message := Some m |} |} |}.

(** The credential form with [password] typed in. *)
Definition sample_selector (password : string) : ApiKeySelector.State :=
  {| ApiKeySelector.mode := ApiKeySelector.Password;
     ApiKeySelector.apiKeyInput := "";
     ApiKeySelector.passwordInput := password;
     ApiKeySelector.loading := false;
     ApiKeySelector.localError := VerifyPassword.Null |}.

(** A Drive setup in which every step succeeds, with the given
    [GOOGLE_CLIENT_ID] and [API_KEY]. *)
Definition drive_env (client_id api_key : option string) : Drive.Env :=
  {| Drive.process_env :=
       from_option (λ v, {[ "GOOGLE_CLIENT_ID" := v ]}) ∅ client_id
       ∪ from_option (λ v, {[ "API_KEY" := v ]}) ∅ api_key;
     Drive.gsi_loaded := true;
     Drive.gsi_loaded_later := true;
     Drive.token_client :=
       Drive.Responds {| Drive.access_token := "ya29.token";
                         Drive.token_error := None;
                         Drive.error_description := None |};
     Drive.video_blob := λ _, Drive.Fulfilled "mp4";
     Drive.Date_now := "1700000000000";
     Drive.upload_endpoint :=
       Drive.Fulfilled
         {| Drive.ok := true;
            Drive.json :=
              Drive.Fulfilled (Json.Object {[ "id" := Json.Str "file1" ]}) |};
     Drive.permissions_endpoint := λ _,
       Drive.Fulfilled
         {| Drive.ok := true;
            Drive.json := Drive.Fulfilled (Json.Object ∅) |};
     Drive.metadata_endpoint := λ _,
       Drive.Fulfilled
         {| Drive.ok := true;
            Drive.json :=
              Drive.Fulfilled
                (Json.Object
                   {[ "webViewLink" := Json.Str "https://drive/view/file1" ]})
         |};
     Drive.to_string := λ _, "[object Object]" |}.

(** A Drive setup in which the upload is refused with [message]. *)
Definition refusing_drive_env (message : string) : Drive.Env :=
  let env := drive_env (Some "id.apps.googleusercontent.com") (Some "AIza") in
  {| Drive.process_env := Drive.process_env env;
     Drive.gsi_loaded := Drive.gsi_loaded env;
     Drive.gsi_loaded_later := Drive.gsi_loaded_later env;
     Drive.token_client := Drive.token_client env;
     Drive.video_blob := Drive.video_blob env;
     Drive.Date_now := Drive.Date_now env;
     Drive.upload_endpoint :=
       Drive.Fulfilled
         {| Drive.ok := false;
            Drive.json :=
              Drive.Fulfilled
                (Json.Object
                   {[ "error" :=
                        Json.Object {[ "message" := Json.Str message ]} ]})
         |};
     Drive.permissions_endpoint := Drive.permissions_endpoint env;
     Drive.metadata_endpoint := Drive.metadata_endpoint env;
     Drive.to_string := Drive.to_string env |}.

(** * Properties *)

(** ** Request shaping *)

Lemma buildRequest_single img prompt ratio :
  buildRequest [img] prompt ratio =
  inr {| model := "veo-3.1-fast-generate-preview"; prompt := prompt;
         image := Some {| imageBytes := data img;
                          image_mimeType := mimeType img |};
         config := base_config ratio |}.
Proof. reflexivity. Qed.

Lemma buildRequest_multiple images prompt ratio :
  1 < length images →
  buildRequest images prompt ratio =
  inr {| model := "veo-3.1-generate-preview"; prompt := prompt;
         image := None;
         config := with_referenceImages (base_config ratio)
                     (toReferenceImage <$> images) |}.
Proof. intros Hlen. unfold buildRequest. by rewrite decide_True. Qed.

Lemma buildRequest_empty prompt ratio :
  buildRequest [] prompt ratio = inl (TypeError_undefined "data").
Proof. reflexivity. Qed.

(** Every request that is built has exactly one of the two shapes, and the
    shape is a function of the number of images. *)
Lemma buildRequest_shape images prompt ratio req :
  buildRequest images prompt ratio = inr req →
  shape_of req =
  Some (if decide (1 < length images) then ReferenceAssets else PrimaryImage).
Proof.
  unfold buildRequest. destruct (decide (1 < length images)) as [Hlen|Hlen].
  - intros [= <-]. reflexivity.
  - destruct (images !! 0) as [img|]; intros [= <-]. reflexivity.
Qed.

Lemma buildRequest_model images prompt ratio req :
  buildRequest images prompt ratio = inr req →
  model req = if decide (1 < length images) then "veo-3.1-generate-preview"
              else "veo-3.1-fast-generate-preview".
Proof.
  unfold buildRequest. destruct (decide (1 < length images)) as [Hlen|Hlen].
  - intros [= <-]. reflexivity.
  - destruct (images !! 0) as [img|]; intros [= <-]. reflexivity.
Qed.

(** ** The trace discipline *)

Lemma framed_ret {A} (a : A) : Framed (mret a : M A).
Proof. intros t. unfold mret, M_ret; simpl. by rewrite app_nil_r. Qed.

Lemma framed_throw {A} e : Framed (throw e : M A).
Proof. intros t. unfold throw; simpl. by rewrite app_nil_r. Qed.

Lemma framed_emit ev : Framed (emit ev).
Proof. intros t. reflexivity. Qed.

Lemma framed_await {A} ev (reply : Outcome A) : Framed (await ev reply).
Proof. intros t. reflexivity. Qed.

Lemma framed_bind {A B} (m : M A) (f : A → M B) :
  Framed m → (∀ a, Framed (f a)) → Framed (m ≫= f).
Proof.
  intros Hm Hf t. unfold mbind, M_bind. rewrite (Hm t).
  destruct (m []) as [[a|e|] t0]; simpl; try reflexivity.
  rewrite (Hf a (t ++ t0)), (Hf a t0); simpl. by rewrite app_assoc.
Qed.

Lemma framed_try_catch {A} (m : M A) (h : Exn → M A) :
  Framed m → (∀ e, Framed (h e)) → Framed (try_catch m h).
Proof.
  intros Hm Hh t. unfold try_catch. rewrite (Hm t).
  destruct (m []) as [[a|e|] t0]; simpl; try reflexivity.
  rewrite (Hh e (t ++ t0)), (Hh e t0); simpl. by rewrite app_assoc.
Qed.

Create HintDb framed.
#[local] Hint Resolve framed_ret framed_throw framed_emit framed_await
  framed_bind framed_try_catch : framed.

Lemma framed_pollIteration reply s : Framed (pollIteration reply s).
Proof. unfold pollIteration. auto 10 with framed. Qed.
#[local] Hint Resolve framed_pollIteration : framed.

Lemma framed_pollLoop replies s : Framed (pollLoop replies s).
Proof.
  revert s. induction replies as [|reply replies IH]; intros s; simpl;
    destruct (done (operation s)); auto with framed.
Qed.
#[local] Hint Resolve framed_pollLoop : framed.

Lemma framed_resolveDownloadLink op : Framed (resolveDownloadLink op).
Proof.
  unfold resolveDownloadLink.
  repeat (case_match; auto 10 with framed); apply framed_bind;
    auto with framed; intros [];
    repeat (case_match; auto 10 with framed).
Qed.
#[local] Hint Resolve framed_resolveDownloadLink : framed.

Lemma framed_downloadVideo env link apiKey :
  Framed (downloadVideo env link apiKey).
Proof.
  unfold downloadVideo. apply framed_bind; auto with framed. intros [].
  apply framed_bind; auto with framed. intros r.
  destruct (negb (ok r)); auto 10 with framed.
Qed.
#[local] Hint Resolve framed_downloadVideo : framed.

Lemma framed_generateVideo env images prompt ratio apiKey :
  Framed (generateVideo env images prompt ratio apiKey).
Proof.
  unfold generateVideo. destruct (buildRequest images prompt ratio);
    auto with framed.
  apply framed_bind; auto with framed. intros op.
  apply framed_bind; auto with framed. intros [].
  apply framed_bind; auto with framed. intros [op' idx].
  auto with framed.
Qed.

(** Sequential composition, read from the empty trace. *)
Lemma bind_nil {A B} (m : M A) (f : A → M B) :
  (∀ a, Framed (f a)) →
  (m ≫= f) [] =
  match (m []).1 with
  | Resolved a => ((f a []).1, (m []).2 ++ (f a []).2)
  | Rejected e => (Rejected e, (m []).2)
  | Pending => (Pending, (m []).2)
  end.
Proof.
  intros Hf. unfold mbind, M_bind.
  destruct (m []) as [[a|e|] t0]; simpl; try reflexivity.
  by rewrite (Hf a t0).
Qed.

(** [generateVideo] starts by submitting the request that was built, and
    nothing else precedes the submission. *)
Lemma generateVideo_submits env images prompt ratio apiKey req :
  buildRequest images prompt ratio = inr req →
  ∃ t, trace (generateVideo env images prompt ratio apiKey []) =
       GenerateVideos req :: t.
Proof.
  intros Hreq. unfold generateVideo. rewrite Hreq.
  rewrite bind_nil.
  - unfold await, trace; simpl.
    destruct (generateVideos env req); simpl; eauto.
  - intros op. apply framed_bind; auto with framed. intros [].
    apply framed_bind; auto with framed. intros [op' idx].
    auto with framed.
Qed.

(** C1. With exactly one image the request carries it in the primary-image
    field and names the fast model; with two or three images every image
    becomes a reference asset of type ASSET, in input order, and the
    non-fast model is named.  A request has exactly one of the two shapes,
    the shape and the model depend on the number of images only, and the
    request so built is the one [generateVideo] submits. *)
Theorem request_shape_by_image_count :
  (∀ img prompt ratio,
     buildRequest [img] prompt ratio =
     inr {| model := "veo-3.1-fast-generate-preview"; prompt := prompt;
            image := Some {| imageBytes := data img;
                             image_mimeType := mimeType img |};
            config := {| numberOfVideos := 1; resolution := "720p";
                         aspectRatio := ratio;
                         referenceImages := None |} |}) ∧
  (∀ images prompt ratio,
     length images = 2 ∨ length images = 3 →
     ∃ refs,
       buildRequest images prompt ratio =
       inr {| model := "veo-3.1-generate-preview"; prompt := prompt;
              image := None;
              config := {| numberOfVideos := 1; resolution := "720p";
                           aspectRatio := ratio;
                           referenceImages := Some refs |} |} ∧
       length refs = length images ∧
       ∀ i img, images !! i = Some img →
         refs !! i =
         Some {| ref_image := {| imageBytes := data img;
                                 image_mimeType := mimeType img |};
                 referenceType := "ASSET" |}) ∧
  (∀ images prompt ratio req,
     buildRequest images prompt ratio = inr req →
     (shape_of req = Some PrimaryImage ∨ shape_of req = Some ReferenceAssets) ∧
     (shape_of req = Some PrimaryImage ↔ length images = 1) ∧
     (shape_of req = Some ReferenceAssets ↔ 1 < length images)) ∧
  (∀ images images' prompt prompt' ratio ratio' req req',
     length images = length images' →
     buildRequest images prompt ratio = inr req →
     buildRequest images' prompt' ratio' = inr req' →
     shape_of req = shape_of req' ∧ model req = model req') ∧
  (∀ env images prompt ratio apiKey req,
     buildRequest images prompt ratio = inr req →
     ∃ t, trace (generateVideo env images prompt ratio apiKey []) =
          GenerateVideos req :: t).
Proof.
  split_and!.
  - intros. apply buildRequest_single.
  - intros images prompt ratio Hlen.
    exists (toReferenceImage <$> images). split_and!.
    + apply buildRequest_multiple. lia.
    + apply length_fmap.
    + intros i img Hi. rewrite list_lookup_fmap, Hi. reflexivity.
  - intros images prompt ratio req Hreq.
    pose proof (buildRequest_shape _ _ _ _ Hreq) as Hshape.
    destruct (decide (1 < length images)) as [Hlen|Hlen]; rewrite Hshape.
    + split_and!; [by right | split; [done | lia] | done].
    + assert (length images = 1).
      { destruct images as [|? [|? ?]]; simpl in *; [done | done | lia]. }
      split_and!; [by left | done | split; [done | lia]].
  - intros images images' prompt prompt' ratio ratio' req req' Hlen H1 H2.
    rewrite (buildRequest_shape _ _ _ _ H1), (buildRequest_shape _ _ _ _ H2).
    rewrite (buildRequest_model _ _ _ _ H1), (buildRequest_model _ _ _ _ H2).
    rewrite Hlen. done.
  - apply generateVideo_submits.
Qed.

Lemma request_shape_by_image_count_witness :
  (∃ refs,
     buildRequest [sample_image "a"; sample_image "b"; sample_image "c"]
                  "wave" Ratio_16_9 =
     inr {| model := "veo-3.1-generate-preview"; prompt := "wave";
            image := None;
            config := {| numberOfVideos := 1; resolution := "720p";
                         aspectRatio := Ratio_16_9;
                         referenceImages := Some refs |} |} ∧
     length refs = 3 ∧
     ∀ i img,
       [sample_image "a"; sample_image "b"; sample_image "c"] !! i = Some img →
       refs !! i =
       Some {| ref_image := {| imageBytes := data img;
                               image_mimeType := mimeType img |};
               referenceType := "ASSET" |}).
Proof.
  destruct request_shape_by_image_count as (_ & Hmulti & _).
  apply (Hmulti [sample_image "a"; sample_image "b"; sample_image "c"]
                "wave" Ratio_16_9).
  right. reflexivity.
Defined.

Lemma buildRequest_succeeds_iff images prompt ratio :
  is_Some (images !! 0) ↔ ∃ req, buildRequest images prompt ratio = inr req.
Proof.
  split.
  - intros [img Himg]. destruct images as [|img0 [|img1 images]].
    + discriminate.
    + eexists. apply buildRequest_single.
    + eexists. apply buildRequest_multiple. simpl. lia.
  - intros [req Hreq]. destruct images as [|img0 images]; [|by eexists].
    discriminate.
Qed.

(** C10. [generateVideo] does not check the number of images: on an empty
    list the test [images.length > 1] fails, [images[0]] is [undefined] and
    reading its [data] throws before anything is submitted; building the
    request fails on the empty list and on no other list, whatever its
    length. *)
Theorem empty_image_list_unguarded :
  (∀ prompt ratio,
     ¬ 1 < length (@nil ImageInput) ∧
     (@nil ImageInput) !! 0 = None ∧
     buildRequest [] prompt ratio = inl (TypeError_undefined "data")) ∧
  (∀ env prompt ratio apiKey t,
     generateVideo env [] prompt ratio apiKey t =
     (Rejected (TypeError_undefined "data"), t)) ∧
  (∀ images prompt ratio,
     is_Some (images !! 0) ↔ ∃ req, buildRequest images prompt ratio = inr req) ∧
  (∀ images prompt ratio,
     3 < length images →
     buildRequest images prompt ratio =
     inr {| model := "veo-3.1-generate-preview"; prompt := prompt;
            image := None;
            config := with_referenceImages (base_config ratio)
                        (toReferenceImage <$> images) |}).
Proof.
  split_and!.
  - intros. split_and!; [simpl; lia | reflexivity..].
  - intros. reflexivity.
  - apply buildRequest_succeeds_iff.
  - intros images prompt ratio Hlen. apply buildRequest_multiple. lia.
Qed.

Lemma empty_image_list_unguarded_witness :
  buildRequest (sample_image <$> ["a"; "b"; "c"; "d"]) "wave" Ratio_9_16 =
  inr {| model := "veo-3.1-generate-preview"; prompt := "wave";
         image := None;
         config := with_referenceImages (base_config Ratio_9_16)
                     (toReferenceImage <$> (sample_image <$> ["a"; "b"; "c"; "d"]))
      |}.
Proof.
  destruct empty_image_list_unguarded as (_ & _ & _ & Hmany).
  apply (Hmany (sample_image <$> ["a"; "b"; "c"; "d"]) "wave" Ratio_9_16).
  simpl. lia.
Defined.

(** ** The poll loop *)

Lemma pollIteration_resolved op s t :
  pollIteration (Resolved op) s t =
  (Resolved (MkLoopState op ((messageIndex s + 1) `mod` length LOADING_MESSAGES)),
   t ++ poll_events (messageIndex s) (operation s) [op]).
Proof.
  unfold pollIteration, mbind, M_bind, emit, try_catch, await, mret, M_ret.
  simpl. by rewrite <- !app_assoc.
Qed.

Lemma pollIteration_rejected e s t :
  pollIteration (Rejected e) s t =
  (Rejected e,
   t ++ [Sleep 5000;
         SetLoadingMessage
           (LOADING_MESSAGES !! ((messageIndex s + 1) `mod` length LOADING_MESSAGES));
         GetVideosOperation (operation s);
         ConsoleError "Polling failed:"]).
Proof.
  unfold pollIteration, mbind, M_bind, emit, try_catch, await, throw.
  simpl. by rewrite <- !app_assoc.
Qed.

Lemma pollIteration_pending s t :
  pollIteration Pending s t =
  (Pending,
   t ++ [Sleep 5000;
         SetLoadingMessage
           (LOADING_MESSAGES !! ((messageIndex s + 1) `mod` length LOADING_MESSAGES));
         GetVideosOperation (operation s)]).
Proof.
  unfold pollIteration, mbind, M_bind, emit, try_catch, await.
  simpl. by rewrite <- !app_assoc.
Qed.

Lemma pollLoop_done replies s t :
  done (operation s) = true → pollLoop replies s t = (Resolved s, t).
Proof. intros Hdone. destruct replies; simpl; by rewrite Hdone. Qed.

(** While the answers say the work is not finished the loop goes on: after
    the answers [ops ++ [opn]], the first of them to a loop that was still
    running, the loop is where it would be had it started from [opn] with
    the index advanced by the number of answers. *)
Lemma pollLoop_answers ops : ∀ s opn rest t,
  done (operation s) = false →
  Forall (λ op, done op = false) ops →
  pollLoop ((Resolved <$> (ops ++ [opn])) ++ rest) s t =
  pollLoop rest
    (MkLoopState opn
       ((messageIndex s + S (length ops)) `mod` length LOADING_MESSAGES))
    (t ++ poll_events (messageIndex s) (operation s) (ops ++ [opn])).
Proof.
  induction ops as [|op ops IH]; intros s opn rest t Hrun Hops.
  - simpl. rewrite Hrun. unfold mbind, M_bind.
    rewrite pollIteration_resolved. reflexivity.
  - inversion Hops as [|? ? Hop Hops']; subst.
    change ((Resolved <$> ((op :: ops) ++ [opn])) ++ rest)
      with (Resolved op :: ((Resolved <$> (ops ++ [opn])) ++ rest)).
    cbn [pollLoop]. rewrite Hrun. unfold mbind, M_bind.
    rewrite pollIteration_resolved.
    rewrite IH by done. cbn [operation messageIndex].
    f_equal.
    + f_equal. change (length LOADING_MESSAGES) with 6.
      rewrite Nat.Div0.add_mod_idemp_l. f_equal. simpl. lia.
    + rewrite <- app_assoc. reflexivity.
Qed.

Lemma status_checks_app t1 t2 :
  status_checks (t1 ++ t2) = status_checks t1 + status_checks t2.
Proof. unfold status_checks. by rewrite filter_app, length_app. Qed.

Lemma status_checks_cons ev t :
  status_checks (ev :: t) =
  (if is_status_check ev then 1 else 0) + status_checks t.
Proof.
  unfold status_checks. rewrite filter_cons.
  destruct (is_status_check ev); reflexivity.
Qed.

Lemma no_fetch_cons ev t :
  is_fetch ev = false →
  filter (λ ev, is_fetch ev = true) (ev :: t) =
  filter (λ ev, is_fetch ev = true) t.
Proof. intros Hev. rewrite filter_cons, Hev. reflexivity. Qed.

Lemma status_checks_poll_events ops : ∀ i prev,
  status_checks (poll_events i prev ops) = length ops.
Proof.
  induction ops as [|op ops IH]; intros i prev; [done|].
  cbn [poll_events]. rewrite status_checks_app, IH. reflexivity.
Qed.

Lemma loading_messages_poll_events ops : ∀ i prev,
  loading_messages (poll_events i prev ops) =
  (λ k, LOADING_MESSAGES !! ((i + k) `mod` length LOADING_MESSAGES))
    <$> seq 1 (length ops).
Proof.
  induction ops as [|op ops IH]; intros i prev; [done|].
  cbn [poll_events]. unfold loading_messages in *.
  rewrite omap_app, IH. cbn [omap app length seq fmap list_fmap].
  f_equal. rewrite <- (fmap_S_seq 1), <- list_fmap_compose.
  apply list_fmap_ext. intros _ k _. unfold compose.
  rewrite Nat.Div0.add_mod_idemp_l. do 2 f_equal. lia.
Qed.

Lemma no_fetch_poll_events ops : ∀ i prev,
  filter (λ ev, is_fetch ev = true) (poll_events i prev ops) = [].
Proof.
  induction ops as [|op ops IH]; intros i prev; [done|].
  cbn [poll_events]. rewrite filter_app, IH. reflexivity.
Qed.

(** C3 (as amended). The index starts at 0 and after [n] passes through the
    loop body it is [n] modulo the number of loading messages, which is 6:
    the loop continues from there, the [k]-th pass has shown message
    [k mod 6], and a loop that ends after [n] passes ends with index
    [n mod 6].  After 6 passes the index is 0 again and after 7 passes it
    is 1. *)
Theorem messageIndex_cycles :
  length LOADING_MESSAGES = 6 ∧
  (∀ ops opn op0 rest t,
     done op0 = false →
     Forall (λ op, done op = false) ops →
     let n := S (length ops) in
     ∃ t',
       pollLoop ((Resolved <$> (ops ++ [opn])) ++ rest) (MkLoopState op0 0) t =
       pollLoop rest (MkLoopState opn (n `mod` length LOADING_MESSAGES))
                (t ++ t') ∧
       status_checks t' = n ∧
       loading_messages t' =
       (λ k, LOADING_MESSAGES !! (k `mod` length LOADING_MESSAGES))
         <$> seq 1 n ∧
       (done opn = true →
        final_index
          (pollLoop ((Resolved <$> (ops ++ [opn])) ++ rest)
                    (MkLoopState op0 0) t) =
        Some (n `mod` length LOADING_MESSAGES))) ∧
  (∀ ops opn op0 rest t,
     done op0 = false →
     Forall (λ op, done op = false) ops →
     done opn = true →
     (length ops = 5 →
      final_index
        (pollLoop ((Resolved <$> (ops ++ [opn])) ++ rest)
                  (MkLoopState op0 0) t) = Some 0) ∧
     (length ops = 6 →
      final_index
        (pollLoop ((Resolved <$> (ops ++ [opn])) ++ rest)
                  (MkLoopState op0 0) t) = Some 1)).
Proof.
  assert (Hgen : ∀ ops opn op0 rest t,
    done op0 = false → Forall (λ op, done op = false) ops → done opn = true →
    final_index
      (pollLoop ((Resolved <$> (ops ++ [opn])) ++ rest) (MkLoopState op0 0) t) =
    Some (S (length ops) `mod` length LOADING_MESSAGES)).
  { intros ops opn op0 rest t H0 Hops Hn.
    rewrite pollLoop_answers by done.
    rewrite pollLoop_done by done. reflexivity. }
  split_and!.
  - reflexivity.
  - intros ops opn op0 rest t H0 Hops n.
    exists (poll_events 0 op0 (ops ++ [opn])). split_and!.
    + by rewrite pollLoop_answers.
    + rewrite status_checks_poll_events, length_app. simpl. lia.
    + rewrite loading_messages_poll_events, length_app.
      replace (length ops + length [opn]) with n by (simpl; lia).
      reflexivity.
    + intros Hn. by apply Hgen.
  - intros ops opn op0 rest t H0 Hops Hn. split; intros Hlen;
      rewrite Hgen by done; rewrite Hlen; reflexivity.
Qed.

Lemma messageIndex_cycles_witness :
  final_index
    (pollLoop ((Resolved <$> (replicate 6 running_operation
                              ++ [finished_operation "https://v/1?alt=media"]))
               ++ [])
              (MkLoopState running_operation 0) []) = Some 1.
Proof.
  destruct messageIndex_cycles as (_ & _ & Hseven).
  apply (Hseven (replicate 6 running_operation)
                (finished_operation "https://v/1?alt=media")
                running_operation [] []).
  - reflexivity.
  - repeat constructor.
  - reflexivity.
  - reflexivity.
Defined.

(** C3, as first worded. "After 7 polls over a 6-message list the message
    index equals 0" fails: seven passes through the loop body leave the
    index at 1. *)
Lemma seven_polls_index_is_not_zero :
  let r := pollLoop (Resolved <$> (replicate 6 running_operation
                                   ++ [finished_operation "https://v/1?alt=media"]))
                    (MkLoopState running_operation 0) [] in
  status_checks r.2 = 7 ∧ final_index r = Some 1 ∧ final_index r ≠ Some 0.
Proof. vm_compute. split_and!; [reflexivity | reflexivity | discriminate]. Qed.

(** ** A failing status check *)

(** [generateVideo] once the request is built and the submission answered:
    the loop runs, then the resolver and the download. *)
Lemma generateVideo_after_submit env images prompt ratio apiKey req op0 :
  buildRequest images prompt ratio = inr req →
  generateVideos env req = Resolved op0 →
  generateVideo env images prompt ratio apiKey [] =
  let pre := [GenerateVideos req; SetLoadingMessage (LOADING_MESSAGES !! 0)] in
  let r := pollLoop (getVideosOperation env) (MkLoopState op0 0) [] in
  match r.1 with
  | Resolved s =>
      let r' := (resolveDownloadLink (operation s)
                 ≫= λ link, downloadVideo env link apiKey) [] in
      (r'.1, pre ++ r.2 ++ r'.2)
  | Rejected e => (Rejected e, pre ++ r.2)
  | Pending => (Pending, pre ++ r.2)
  end.
Proof.
  intros Hreq Hsub. unfold generateVideo. rewrite Hreq.
  unfold mbind at 1 2 3, M_bind at 1 2 3, await, emit. rewrite Hsub.
  cbn [app]. rewrite (framed_pollLoop _ _ [_; _]).
  destruct (pollLoop (getVideosOperation env) (MkLoopState op0 0) [])
    as [[[op idx]|e|] t1]; cbn [fst snd operation]; try reflexivity.
  assert (Hk : Framed (resolveDownloadLink op
                       ≫= λ link, downloadVideo env link apiKey))
    by auto with framed.
  rewrite (Hk ([_; _] ++ t1)). reflexivity.
Qed.

Lemma pollLoop_running ops s rest t :
  done (operation s) = false →
  messageIndex s < length LOADING_MESSAGES →
  Forall (λ op, done op = false) ops →
  pollLoop ((Resolved <$> ops) ++ rest) s t =
  pollLoop rest
    (MkLoopState (List.last ops (operation s))
       ((messageIndex s + length ops) `mod` length LOADING_MESSAGES))
    (t ++ poll_events (messageIndex s) (operation s) ops) ∧
  done (List.last ops (operation s)) = false.
Proof.
  intros Hrun Hidx Hops.
  destruct ops as [|op ops _] using rev_ind.
  - cbn [fmap list_fmap app length poll_events List.last].
    rewrite Nat.add_0_r, Nat.mod_small, app_nil_r by done.
    by destruct s.
  - apply Forall_app in Hops as [Hops Hop].
    rewrite last_last. split; [|by inversion Hop].
    rewrite pollLoop_answers by done.
    rewrite length_app. cbn [length].
    replace (length ops + 1) with (S (length ops)) by lia. reflexivity.
Qed.

(** A loop whose status check throws after the answers [ops]. *)
Lemma pollLoop_rejected op0 ops e rest :
  done op0 = false →
  Forall (λ op, done op = false) ops →
  pollLoop ((Resolved <$> ops) ++ Rejected e :: rest) (MkLoopState op0 0) [] =
  (Rejected e,
   poll_events 0 op0 ops ++
   [Sleep 5000;
    SetLoadingMessage
      (LOADING_MESSAGES !! (S (length ops) `mod` length LOADING_MESSAGES));
    GetVideosOperation (List.last ops op0);
    ConsoleError "Polling failed:"]).
Proof.
  intros Hrun Hops.
  destruct (pollLoop_running ops (MkLoopState op0 0) (Rejected e :: rest) [])
    as [Hloop Hlast]; [done | simpl; lia | done |].
  cbn [operation messageIndex] in Hloop, Hlast.
  rewrite Hloop. cbn [pollLoop operation]. rewrite Hlast.
  unfold mbind, M_bind. rewrite pollIteration_rejected.
  cbn [operation messageIndex app].
  rewrite Nat.Div0.add_mod_idemp_l.
  replace (0 + length ops + 1) with (S (length ops)) by lia. reflexivity.
Qed.

(** C4. When a status check throws, [generateVideo] rejects with the very
    value that was thrown, right after logging it: the failing check is the
    last one made, however many answers the backend still had, and no
    download is attempted. *)
Theorem failed_status_check_is_fatal
    env images prompt ratio apiKey req op0 ops e rest :
  buildRequest images prompt ratio = inr req →
  generateVideos env req = Resolved op0 →
  done op0 = false →
  Forall (λ op, done op = false) ops →
  getVideosOperation env = (Resolved <$> ops) ++ Rejected e :: rest →
  let r := generateVideo env images prompt ratio apiKey [] in
  outcome r = Rejected e ∧
  status_checks (trace r) = S (length ops) ∧
  (∃ t op, trace r =
           t ++ [GetVideosOperation op; ConsoleError "Polling failed:"]) ∧
  filter (λ ev, is_fetch ev = true) (trace r) = [].
Proof.
  intros Hreq Hsub Hrun Hops Hreplies r. subst r.
  rewrite (generateVideo_after_submit _ _ _ _ _ _ _ Hreq Hsub).
  rewrite Hreplies, (pollLoop_rejected _ _ _ _ Hrun Hops).
  cbn [fst snd outcome trace]. split_and!.
  - reflexivity.
  - rewrite !status_checks_app, status_checks_poll_events,
      !status_checks_cons.
    cbn [is_status_check]. unfold status_checks. rewrite filter_nil.
    cbn [length]. lia.
  - eexists (_ :: _ :: poll_events 0 op0 ops ++ [_; _]), _.
    cbn [app]. do 2 f_equal. rewrite <- app_assoc. reflexivity.
  - rewrite !filter_app, no_fetch_poll_events, !no_fetch_cons by done.
    reflexivity.
Qed.

Lemma failed_status_check_is_fatal_witness :
  let r := generateVideo
             (sample_env [Resolved running_operation;
                          Rejected (MkExn "TypeError" "Failed to fetch");
                          Resolved (finished_operation "https://v/1?alt=media")])
             [sample_image "a"] "wave" Ratio_16_9 "KEY" [] in
  outcome r = Rejected (MkExn "TypeError" "Failed to fetch") ∧
  status_checks (trace r) = 2 ∧
  (∃ t op, trace r =
           t ++ [GetVideosOperation op; ConsoleError "Polling failed:"]) ∧
  filter (λ ev, is_fetch ev = true) (trace r) = [].
Proof.
  eapply (failed_status_check_is_fatal
            (sample_env [Resolved running_operation;
                         Rejected (MkExn "TypeError" "Failed to fetch");
                         Resolved (finished_operation "https://v/1?alt=media")])
            [sample_image "a"] "wave" Ratio_16_9 "KEY" _ running_operation
            [running_operation] _
            [Resolved (finished_operation "https://v/1?alt=media")]).
  - reflexivity.
  - reflexivity.
  - reflexivity.
  - repeat constructor.
  - reflexivity.
Defined.

(** ** Result resolution *)

(** The resolver computes the classification: it returns the locator or
    throws the class's error, after logging the response when there is no
    locator. *)
Lemma resolveDownloadLink_classify op t :
  resolveDownloadLink op t =
  (resolution_outcome (classify op), t ++ resolver_log (classify op)).
Proof.
  unfold resolveDownloadLink, classify, classify_with, pick_first, entries,
    locator_of, filter_reason_of, top_level_error.
  destruct op as [d [[[[|g gs]|] err]|]]; cbn -[truthy_string].
  - destruct (truthy_string (err ≫= message)); cbn; by rewrite ?app_nil_r.
  - destruct (truthy_string (video g ≫= uri)); cbn; [by rewrite app_nil_r|].
    destruct (truthy_string (video g ≫= filterReason)); cbn; [done|].
    destruct (truthy_string (err ≫= message)); cbn; done.
  - destruct (truthy_string (err ≫= message)); cbn; done.
  - done.
Qed.

Lemma string_length_app (s1 s2 : string) :
  String.length (s1 +:+ s2) = String.length s1 + String.length s2.
Proof. induction s1 as [|c s1 IH]; simpl; [done | by rewrite IH]. Qed.

Lemma string_app_inj_r (s1 s2 x : string) :
  s1 +:+ x = s2 +:+ x → s1 = s2.
Proof.
  intros Heq.
  assert (Hlen : String.length s1 = String.length s2).
  { apply (f_equal String.length) in Heq.
    rewrite !string_length_app in Heq. lia. }
  revert s2 Heq Hlen. induction s1 as [|c s1 IH]; intros [|c' s2] Heq Hlen;
    simpl in *; try done.
  injection Heq as -> Heq. f_equal. apply IH; [done | lia].
Qed.

(** Distinct classifications reach the caller differently. *)
Lemma resolution_outcome_inj r1 r2 :
  resolution_outcome r1 = resolution_outcome r2 → r1 = r2.
Proof.
  destruct r1, r2; cbn; intros Heq; try discriminate; try reflexivity.
  - by injection Heq as ->.
  - injection Heq as Heq.
    change ("" +:+ ?x) with x in Heq.
    by apply string_app_inj_r in Heq as ->.
  - injection Heq as Heq. change ("" +:+ ?x) with x in Heq. by subst.
Qed.

(** With at most one entry, as [numberOfVideos = 1] asks of the backend,
    "some entry" and "the first entry" are the same. *)
Lemma classify_any_entry_single op :
  length (entries op) ≤ 1 → classify_any_entry op = classify op.
Proof.
  unfold classify_any_entry, classify, classify_with, pick_any, pick_first.
  destruct (entries op) as [|g [|g' gs]]; cbn [length]; [done| |lia].
  intros _. cbn. by destruct (locator_of g), (filter_reason_of g).
Qed.

(** C2 (as amended). The resolver classifies a completed operation in five
    ordered cases, the first that applies deciding: (1) the first
    generated-video entry has a non-empty locator: success with it;
    (2) otherwise the first entry has a non-empty safety-filter reason:
    SafetyFiltered with it; (3) otherwise the response has a non-empty
    top-level error message: UpstreamError with it; (4) otherwise the
    generated-video list is absent or empty: EmptyResult; (5) otherwise
    MalformedResponse.  An empty list without a top-level error gives
    EmptyResult, every operation gets exactly one of the five classes, and
    on a list of at most one entry "the first entry" may be read "some
    entry". *)
Theorem resolver_five_way_classification (op : Operation) (t : list Event) :
  let r := outcome (resolveDownloadLink op t) in
  let first := head (entries op) in
  r = resolution_outcome (classify op) ∧
  (exists! c, r = resolution_outcome c) ∧
  (∀ locator,
     first ≫= locator_of = Some locator →
     r = Resolved locator) ∧
  (∀ reason,
     first ≫= locator_of = None →
     first ≫= filter_reason_of = Some reason →
     r = resolution_outcome (SafetyFiltered reason)) ∧
  (∀ m,
     first ≫= locator_of = None →
     first ≫= filter_reason_of = None →
     top_level_error op = Some m →
     r = resolution_outcome (UpstreamError m)) ∧
  (first ≫= locator_of = None →
   first ≫= filter_reason_of = None →
   top_level_error op = None →
   (entries op = [] → r = resolution_outcome EmptyResult) ∧
   (entries op ≠ [] → r = resolution_outcome MalformedResponse)) ∧
  (entries op = [] → top_level_error op = None →
   r = resolution_outcome EmptyResult) ∧
  (length (entries op) ≤ 1 →
   r = resolution_outcome (classify_any_entry op)).
Proof.
  intros r first. subst r first.
  rewrite resolveDownloadLink_classify. unfold outcome; cbn [fst].
  split_and!; [..|by intros ->%classify_any_entry_single].
  all: unfold classify, classify_with, pick_first.
  - reflexivity.
  - eexists. split; [reflexivity|]. intros c. apply resolution_outcome_inj.
  - intros locator ->. reflexivity.
  - intros reason -> ->. reflexivity.
  - intros m -> -> ->. reflexivity.
  - intros -> -> ->. split; intros Hl; destruct (entries op); done.
  - intros -> ->. reflexivity.
Qed.

Lemma resolver_five_way_classification_witness :
  outcome (resolveDownloadLink empty_list_operation []) =
  resolution_outcome EmptyResult.
Proof.
  destruct (resolver_five_way_classification empty_list_operation [])
    as (_ & _ & _ & _ & _ & _ & Hempty & _).
  apply Hempty; reflexivity.
Defined.

(** C2, as first worded. A locator that only a later entry carries is not
    used: with case (1) read as "some generated-video entry has a locator"
    the class would be success, and the resolver reports a malformed
    response. *)
Lemma later_entry_locator_is_ignored :
  classify_any_entry two_entry_operation = Success "https://v/2?alt=media" ∧
  outcome (resolveDownloadLink two_entry_operation []) =
  resolution_outcome MalformedResponse ∧
  outcome (resolveDownloadLink two_entry_operation []) ≠
  resolution_outcome (classify_any_entry two_entry_operation).
Proof. split_and!; [reflexivity | reflexivity | discriminate]. Qed.

(** C9. Resolution is a function of the completed operation, in fact of
    its response: whatever happened before and however often it is
    repeated, the same operation resolves to the same locator or to the
    same error with the same message. *)
Theorem resolution_is_deterministic (op : Operation) :
  (∀ t1 t2,
     outcome (resolveDownloadLink op t1) =
     outcome (resolveDownloadLink op t2)) ∧
  (∀ t,
     outcome (resolveDownloadLink op (trace (resolveDownloadLink op t))) =
     outcome (resolveDownloadLink op t)) ∧
  (∀ n t,
     (resolve_repeatedly n op t).1 =
     replicate n (resolution_outcome (classify op))) ∧
  (∀ d t1 t2,
     outcome (resolveDownloadLink {| done := d; response := response op |} t1)
     = outcome (resolveDownloadLink op t2)).
Proof.
  split_and!.
  - intros t1 t2. by rewrite !resolveDownloadLink_classify.
  - intros t. by rewrite !resolveDownloadLink_classify.
  - intros n. induction n as [|n IH]; intros t; [done|].
    cbn [resolve_repeatedly fst snd replicate]. rewrite IH.
    by rewrite resolveDownloadLink_classify.
  - intros d t1 t2. by rewrite !resolveDownloadLink_classify.
Qed.

(** ** Failures after the loop *)

(** A run that succeeds: submission, two status checks, resolution,
    download. *)
Example generateVideo_success :
  generateVideo
    (sample_env [Resolved running_operation;
                 Resolved (finished_operation "https://v/1?alt=media")])
    [sample_image "a"] "wave" Ratio_16_9 "KEY" [] =
  (Resolved "blob:mp4",
   [GenerateVideos
      {| model := "veo-3.1-fast-generate-preview"; prompt := "wave";
         image := Some {| imageBytes := "a"; image_mimeType := "image/png" |};
         config := base_config Ratio_16_9 |};
    SetLoadingMessage (Some "Recalling the details of your memory...");
    Sleep 5000;
    SetLoadingMessage (Some "Gathering the echoes of the past...");
    GetVideosOperation running_operation;
    Sleep 5000;
    SetLoadingMessage (Some "Focusing on the feeling of the moment...");
    GetVideosOperation running_operation;
    SetLoadingMessage (Some "Fetching generated video...");
    Fetch "https://v/1?alt=media&key=KEY";
    ReadBlob;
    CreateObjectURL "mp4"]).
Proof. reflexivity. Qed.

Lemma no_fetch_pollLoop replies : ∀ s t,
  filter (λ ev, is_fetch ev = true) (pollLoop replies s t).2 =
  filter (λ ev, is_fetch ev = true) t.
Proof.
  induction replies as [|reply replies IH]; intros s t; cbn [pollLoop];
    destruct (done (operation s)); try reflexivity.
  - rewrite pollIteration_pending. cbn [snd].
    rewrite filter_app, !no_fetch_cons, filter_nil, app_nil_r by done.
    reflexivity.
  - unfold mbind, M_bind. destruct reply as [op|e|].
    + rewrite pollIteration_resolved, IH, filter_app, no_fetch_poll_events.
      by rewrite app_nil_r.
    + rewrite pollIteration_rejected. cbn [snd].
      rewrite filter_app, !no_fetch_cons, filter_nil, app_nil_r by done.
      reflexivity.
    + rewrite pollIteration_pending. cbn [snd].
      rewrite filter_app, !no_fetch_cons, filter_nil, app_nil_r by done.
      reflexivity.
Qed.

(** [generateVideo] once the loop has ended with the operation [op]. *)
Lemma generateVideo_after_loop env images prompt ratio apiKey req op0 s :
  buildRequest images prompt ratio = inr req →
  generateVideos env req = Resolved op0 →
  (pollLoop (getVideosOperation env) (MkLoopState op0 0) []).1 = Resolved s →
  generateVideo env images prompt ratio apiKey [] =
  let pre := [GenerateVideos req; SetLoadingMessage (LOADING_MESSAGES !! 0)]
             ++ (pollLoop (getVideosOperation env) (MkLoopState op0 0) []).2
             ++ resolver_log (classify (operation s)) in
  match classify (operation s) with
  | Success link =>
      let r := downloadVideo env link apiKey [] in (r.1, pre ++ r.2)
  | c => (resolution_outcome c, pre)
  end.
Proof.
  intros Hreq Hsub Hloop.
  rewrite (generateVideo_after_submit _ _ _ _ _ _ _ Hreq Hsub).
  cbn zeta. rewrite Hloop.
  rewrite bind_nil by auto with framed.
  rewrite resolveDownloadLink_classify. cbn [fst snd app].
  destruct (classify (operation s)); cbn [resolution_outcome resolver_log];
    rewrite ?app_nil_r; reflexivity.
Qed.

Lemma classify_safety_filtered op g v reason :
  head (entries op) = Some g →
  video g = Some v →
  truthy_string (uri v) = None →
  filterReason v = Some reason →
  reason ≠ "" →
  classify op = SafetyFiltered reason.
Proof.
  intros Hg Hv Huri Hreason Hne.
  unfold classify, classify_with, pick_first, locator_of, filter_reason_of.
  rewrite Hg. cbn. rewrite Hv. cbn. rewrite Huri, Hreason. cbn.
  by rewrite decide_False.
Qed.

(** C5. When the loop ends with an operation whose first generated-video
    entry carries a (non-empty) safety-filter reason and no locator,
    [generateVideo] rejects with the SafetyFiltered error, whose message
    quotes the reason and advises a different prompt, and the trace holds no
    fetch. *)
Theorem safety_filtered_without_fetch
    env images prompt ratio apiKey req op0 s g v reason :
  buildRequest images prompt ratio = inr req →
  generateVideos env req = Resolved op0 →
  (pollLoop (getVideosOperation env) (MkLoopState op0 0) []).1 = Resolved s →
  head (entries (operation s)) = Some g →
  video g = Some v →
  truthy_string (uri v) = None →
  filterReason v = Some reason →
  reason ≠ "" →
  let r := generateVideo env images prompt ratio apiKey [] in
  outcome (resolveDownloadLink (operation s) []) =
    resolution_outcome (SafetyFiltered reason) ∧
  outcome r =
    Rejected (Error ("Video was filtered by safety policy: " +:+ reason
                     +:+ ". Try a different prompt.")) ∧
  filter (λ ev, is_fetch ev = true) (trace r) = [].
Proof.
  intros Hreq Hsub Hloop Hg Hv Huri Hreason Hne r. subst r.
  pose proof (classify_safety_filtered _ _ _ _ Hg Hv Huri Hreason Hne) as Hc.
  rewrite (generateVideo_after_loop _ _ _ _ _ _ _ _ Hreq Hsub Hloop).
  rewrite resolveDownloadLink_classify, Hc.
  cbn [outcome trace fst snd resolution_outcome resolver_log].
  split_and!; try reflexivity.
  rewrite !filter_app, no_fetch_pollLoop. reflexivity.
Qed.

Lemma safety_filtered_without_fetch_witness :
  let r := generateVideo
             (sample_env [Resolved (filtered_operation "RAI_VIOLENCE")])
             [sample_image "a"] "wave" Ratio_16_9 "KEY" [] in
  outcome (resolveDownloadLink (filtered_operation "RAI_VIOLENCE") []) =
    resolution_outcome (SafetyFiltered "RAI_VIOLENCE") ∧
  outcome r =
    Rejected (Error ("Video was filtered by safety policy: " +:+ "RAI_VIOLENCE"
                     +:+ ". Try a different prompt.")) ∧
  filter (λ ev, is_fetch ev = true) (trace r) = [].
Proof.
  eapply (safety_filtered_without_fetch
           (sample_env [Resolved (filtered_operation "RAI_VIOLENCE")])
           [sample_image "a"] "wave" Ratio_16_9 "KEY" _ running_operation
           (MkLoopState (filtered_operation "RAI_VIOLENCE") 1)
           {| video := Some {| uri := None;
                               filterReason := Some "RAI_VIOLENCE" |} |}
           {| uri := None; filterReason := Some "RAI_VIOLENCE" |}
           "RAI_VIOLENCE");
    (reflexivity || discriminate).
Defined.

Lemma pollLoop_loop_events replies : ∀ s t,
  Forall (λ ev, loop_event ev = true) t →
  Forall (λ ev, loop_event ev = true) (pollLoop replies s t).2.
Proof.
  assert (Hstep : ∀ reply s t,
    Forall (λ ev, loop_event ev = true) t →
    Forall (λ ev, loop_event ev = true) (pollIteration reply s t).2).
  { intros [op|e|] s t Ht;
      rewrite ?pollIteration_resolved, ?pollIteration_rejected,
        ?pollIteration_pending; cbn [snd poll_events];
      apply Forall_app; split; try done; repeat constructor. }
  induction replies as [|reply replies IH]; intros s t Ht; cbn [pollLoop];
    destruct (done (operation s)); try done; [by apply Hstep|].
  unfold mbind, M_bind. specialize (Hstep reply s t Ht).
  destruct (pollIteration reply s t) as [[s'|e|] t']; cbn [snd] in *;
    [by apply IH | done | done].
Qed.

Lemma filter_loop_events (P : Event → Prop) `{∀ ev, Decision (P ev)} t :
  (∀ ev, loop_event ev = true → ¬ P ev) →
  Forall (λ ev, loop_event ev = true) t →
  filter P t = [].
Proof.
  intros HP. induction 1 as [|ev t Hev Ht IH]; [done|].
  rewrite filter_cons, decide_False by auto. done.
Qed.

Lemma last_two {A} (l : list A) (x y : A) : last (l ++ [x; y]) = Some y.
Proof.
  change [x; y] with ([x] ++ [y]). rewrite app_assoc. apply last_snoc.
Qed.

Lemma downloadVideo_not_ok env link apiKey resp :
  fetch env (link +:+ "&key=" +:+ apiKey) = Resolved resp →
  ok resp = false →
  downloadVideo env link apiKey [] =
  (Rejected (Error ("Failed to download video: " +:+ statusText resp)),
   [SetLoadingMessage (Some "Fetching generated video...");
    Fetch (link +:+ "&key=" +:+ apiKey)]).
Proof.
  intros Hfetch Hok.
  unfold downloadVideo, mbind, M_bind, emit, await, throw. cbn [app].
  rewrite Hfetch, Hok. reflexivity.
Qed.

Lemma downloadVideo_resolved env link apiKey h :
  (downloadVideo env link apiKey []).1 = Resolved h →
  ∃ resp content,
    fetch env (link +:+ "&key=" +:+ apiKey) = Resolved resp ∧
    ok resp = true ∧ blob resp = Resolved content ∧
    h = createObjectURL env content.
Proof.
  unfold downloadVideo, mbind, M_bind, emit, await, throw, mret, M_ret.
  cbn [app].
  destruct (fetch env (link +:+ "&key=" +:+ apiKey)) as [resp| |];
    [|done..].
  destruct (ok resp) eqn:Hok; cbn [negb fst]; [|done].
  destruct (blob resp) as [content| |] eqn:Hblob; cbn [fst]; [|done..].
  intros [= <-]. by exists resp, content.
Qed.

(** The message of a download failure is the message of no
    classification. *)
Lemma download_error_not_a_classification c statusText :
  resolution_outcome c ≠
  Rejected (Error ("Failed to download video: " +:+ statusText)).
Proof. destruct c; discriminate. Qed.

(** C6. When the resolver found a locator and the fetch answers with a
    status that is not a success, [generateVideo] rejects with the error
    "Failed to download video: " followed by the status text, which is the
    outcome of none of the five classifications, and neither reads the body
    nor creates a handle.  Conversely a handle is returned only if the fetch
    answered with a success status: it is the handle created from the body
    of that response. *)
Theorem download_failure_is_distinct :
  (∀ env images prompt ratio apiKey req op0 s link resp,
     buildRequest images prompt ratio = inr req →
     generateVideos env req = Resolved op0 →
     (pollLoop (getVideosOperation env) (MkLoopState op0 0) []).1 = Resolved s →
     classify (operation s) = Success link →
     fetch env (link +:+ "&key=" +:+ apiKey) = Resolved resp →
     ok resp = false →
     let r := generateVideo env images prompt ratio apiKey [] in
     outcome r =
       Rejected (Error ("Failed to download video: " +:+ statusText resp)) ∧
     (∀ c, outcome r ≠ resolution_outcome c) ∧
     filter (λ ev, is_handle_creation ev = true) (trace r) = [] ∧
     last (trace r) = Some (Fetch (link +:+ "&key=" +:+ apiKey))) ∧
  (∀ env images prompt ratio apiKey h,
     outcome (generateVideo env images prompt ratio apiKey []) = Resolved h →
     ∃ link resp content,
       fetch env (link +:+ "&key=" +:+ apiKey) = Resolved resp ∧
       ok resp = true ∧ blob resp = Resolved content ∧
       h = createObjectURL env content).
Proof.
  split.
  - intros env images prompt ratio apiKey req op0 s link resp
      Hreq Hsub Hloop Hc Hfetch Hok r. subst r.
    rewrite (generateVideo_after_loop _ _ _ _ _ _ _ _ Hreq Hsub Hloop).
    rewrite Hc. cbn zeta.
    rewrite (downloadVideo_not_ok _ _ _ _ Hfetch Hok).
    cbn [outcome trace fst snd resolver_log]. split_and!.
    + reflexivity.
    + intros c Heq. symmetry in Heq.
      by apply download_error_not_a_classification in Heq.
    + rewrite app_nil_r, !filter_app.
      rewrite (filter_loop_events _ (pollLoop _ _ _).2).
      * reflexivity.
      * by intros [].
      * apply pollLoop_loop_events. constructor.
    + rewrite app_nil_r. apply (last_two (_ :: _ :: _)).
  - intros env images prompt ratio apiKey h Hout.
    destruct (buildRequest images prompt ratio) as [e|req] eqn:Hreq.
    { unfold generateVideo in Hout. by rewrite Hreq in Hout. }
    destruct (generateVideos env req) as [op0|e|] eqn:Hsub.
    2,3: unfold generateVideo in Hout; rewrite Hreq in Hout;
      unfold mbind at 1, M_bind at 1, await in Hout;
      by rewrite Hsub in Hout.
    destruct (pollLoop (getVideosOperation env) (MkLoopState op0 0) []).1
      as [s|e|] eqn:Hloop.
    2,3: rewrite (generateVideo_after_submit _ _ _ _ _ _ _ Hreq Hsub) in Hout;
      cbn zeta in Hout; by rewrite Hloop in Hout.
    rewrite (generateVideo_after_loop _ _ _ _ _ _ _ _ Hreq Hsub Hloop)
      in Hout.
    cbn zeta in Hout.
    destruct (classify (operation s)) as [link| | | |]; try done.
    exists link. by apply downloadVideo_resolved.
Qed.

Lemma download_failure_is_distinct_witness :
  let r := generateVideo refusing_env [sample_image "a"] "wave" Ratio_16_9
                         "KEY" [] in
  outcome r = Rejected (Error ("Failed to download video: " +:+ "Forbidden")) ∧
  (∀ c, outcome r ≠ resolution_outcome c) ∧
  filter (λ ev, is_handle_creation ev = true) (trace r) = [] ∧
  last (trace r) = Some (Fetch ("https://v/1?alt=media" +:+ "&key=" +:+ "KEY")).
Proof.
  destruct download_failure_is_distinct as [Hfail _].
  eapply (Hfail refusing_env [sample_image "a"] "wave" Ratio_16_9 "KEY" _
                running_operation
                (MkLoopState (finished_operation "https://v/1?alt=media") 1)
                "https://v/1?alt=media"
                {| ok := false; statusText := "Forbidden";
                   blob := Resolved "" |});
    reflexivity.
Defined.

(** ** The upload form *)

Section FormProperties.
Import VideoGeneratorForm.
Variable objectURL : File → string.
Variable fileToGenerativePart : File → Exn + ImageInput.
Variable suggestPrompts : ImageInput → Exn + list string.

Lemma promise_all_length files : ∀ parts,
  promise_all fileToGenerativePart files = inr parts →
  length parts = length files.
Proof.
  induction files as [|f files IH]; intros parts; cbn [promise_all].
  - by intros [= <-].
  - destruct (fileToGenerativePart f) as [e|part]; [done|].
    destruct (promise_all fileToGenerativePart files) as [e|parts'];
      [done|].
    intros [= <-]. cbn [length]. by rewrite (IH parts').
Qed.

Lemma remove_index_length {A} index (l : list A) :
  length (remove_index index l) ≤ length l.
Proof.
  unfold remove_index. rewrite length_fmap.
  etrans; [apply length_filter|]. by rewrite length_imap.
Qed.

Lemma handleFileChange_bound files st :
  length (imageFiles st) ≤ 3 →
  length (imageFiles (handleFileChange objectURL files st)) ≤ 3.
Proof.
  intros Hst. unfold handleFileChange.
  destruct files as [[|f fs]|]; try done.
  destruct (decide (3 < length (imageFiles st) + length (f :: fs)))
    as [Hmany|Hfew]; [done|].
  destruct (List.find _ (f :: fs)); [done|].
  cbn [imageFiles setSuggestions setImages setError].
  rewrite length_app. lia.
Qed.

Lemma handleSubmit_calls st st' calls :
  handleSubmit fileToGenerativePart st = (st', calls) →
  imageFiles st' = imageFiles st ∧
  ∀ images p r, OnGenerate images p r ∈ calls →
    length images = length (imageFiles st) ∧ 1 ≤ length images.
Proof.
  unfold handleSubmit.
  destruct (bool_decide (length (imageFiles st) = 0)) eqn:Hempty;
    cbn [orb].
  { intros [= <- <-]. split; [done|]. intros ??? Hin. by apply elem_of_nil in Hin. }
  apply bool_decide_eq_false in Hempty.
  destruct (bool_decide (prompt st = "")).
  { intros [= <- <-]. split; [done|]. intros ??? Hin. by apply elem_of_nil in Hin. }
  cbn [imageFiles setError].
  destruct (promise_all fileToGenerativePart (imageFiles st))
    as [e|parts] eqn:Hall.
  { intros [= <- <-]. split; [done|]. intros ??? Hin. by apply elem_of_nil in Hin. }
  intros [= <- <-]. split; [done|].
  intros images p r Hin. apply list_elem_of_singleton in Hin.
  injection Hin as -> _ _.
  apply promise_all_length in Hall. lia.
Qed.

Lemma step_bound a st st' calls :
  length (imageFiles st) ≤ 3 →
  step objectURL fileToGenerativePart suggestPrompts a st = (st', calls) →
  length (imageFiles st') ≤ 3 ∧
  ∀ images p r, OnGenerate images p r ∈ calls → 1 ≤ length images ≤ 3.
Proof.
  intros Hst. destruct a as [files|index|p|r| |]; cbn [step].
  - intros [= <- <-]. split; [by apply handleFileChange_bound|].
    intros ??? Hin. by apply elem_of_nil in Hin.
  - intros [= <- <-]. split.
    + cbn. etrans; [apply remove_index_length|done].
    + intros ??? Hin. by apply elem_of_nil in Hin.
  - intros [= <- <-]. split; [done|].
    intros ??? Hin. by apply elem_of_nil in Hin.
  - intros [= <- <-]. split; [done|].
    intros ??? Hin. by apply elem_of_nil in Hin.
  - intros [= <- <-]. split.
    + unfold handleSuggestPrompts. destruct (imageFiles st) eqn:Hfiles;
        [by rewrite Hfiles|].
      destruct (fileToGenerativePart _); [|destruct (suggestPrompts _)];
        cbn; by rewrite Hfiles.
    + intros ??? Hin. by apply elem_of_nil in Hin.
  - intros Hsub. apply handleSubmit_calls in Hsub as [Hfiles Hcalls].
    split; [by rewrite Hfiles|].
    intros images p r Hin. apply Hcalls in Hin. lia.
Qed.

Lemma run_bound actions : ∀ st st' calls,
  length (imageFiles st) ≤ 3 →
  run objectURL fileToGenerativePart suggestPrompts actions st = (st', calls) →
  length (imageFiles st') ≤ 3 ∧
  ∀ images p r, OnGenerate images p r ∈ calls → 1 ≤ length images ≤ 3.
Proof.
  induction actions as [|a actions IH]; intros st st' calls Hst; cbn [run].
  - intros [= <- <-]. split; [done|].
    intros ??? Hin. by apply elem_of_nil in Hin.
  - destruct (step _ _ _ a st) as [st1 calls1] eqn:Hstep.
    destruct (run _ _ _ actions st1) as [st2 calls2] eqn:Hrun.
    intros [= <- <-].
    apply step_bound in Hstep as [Hst1 Hcalls1]; [|done].
    apply IH in Hrun as [Hst2 Hcalls2]; [|done].
    split; [done|]. intros images p r Hin.
    apply elem_of_app in Hin as [Hin|Hin]; eauto.
Qed.

End FormProperties.

(** C7. The form keeps the image count between 1 and 3 before anything
    reaches the request builder: files that would bring the selection above
    3 are refused with an error and the selection stays as it was; a submit
    without images sets an error and calls [onGenerate] not at all; so in
    every session that starts from the initial form, the selection never
    exceeds 3 and every call of [onGenerate], which is what invokes
    [generateVideo], carries 1 to 3 images, for which a request can be
    built. *)
Theorem form_enforces_image_count
    (objectURL : VideoGeneratorForm.File → string)
    (fileToGenerativePart : VideoGeneratorForm.File → Exn + ImageInput)
    (suggestPrompts : ImageInput → Exn + list string) :
  (∀ st files,
     files ≠ [] →
     3 < length (VideoGeneratorForm.imageFiles st) + length files →
     let st' := VideoGeneratorForm.handleFileChange objectURL (Some files) st in
     st' = VideoGeneratorForm.setError
             (Some "You can upload a maximum of 3 images.") st ∧
     VideoGeneratorForm.imageFiles st' = VideoGeneratorForm.imageFiles st ∧
     VideoGeneratorForm.imagePreviews st' =
       VideoGeneratorForm.imagePreviews st) ∧
  (∀ st,
     VideoGeneratorForm.imageFiles st = [] →
     VideoGeneratorForm.handleSubmit fileToGenerativePart st =
     (VideoGeneratorForm.setError
        (Some "Please provide at least one image and a prompt.") st, [])) ∧
  (∀ actions st calls,
     VideoGeneratorForm.run objectURL fileToGenerativePart suggestPrompts
       actions VideoGeneratorForm.initial = (st, calls) →
     length (VideoGeneratorForm.imageFiles st) ≤ 3 ∧
     ∀ images p r,
       VideoGeneratorForm.OnGenerate images p r ∈ calls →
       1 ≤ length images ≤ 3 ∧ ∃ req, buildRequest images p r = inr req).
Proof.
  split_and!.
  - intros st files Hne Hmany st'. subst st'.
    unfold VideoGeneratorForm.handleFileChange.
    destruct files as [|f fs]; [done|]. by rewrite decide_True.
  - intros st Hempty. unfold VideoGeneratorForm.handleSubmit.
    by rewrite Hempty.
  - intros actions st calls Hrun.
    apply run_bound in Hrun as [Hst Hcalls]; [|cbn; lia].
    split; [done|]. intros images p r Hin.
    specialize (Hcalls _ _ _ Hin). split; [done|].
    destruct buildRequest_succeeds_iff with (images := images)
      (prompt := p) (ratio := r) as [Hsome _].
    apply Hsome. destruct images; [cbn in Hcalls; lia | by eexists].
Qed.

Lemma form_enforces_image_count_witness :
  length (VideoGeneratorForm.imageFiles sample_session.1) ≤ 3 ∧
  ∀ images p r,
    VideoGeneratorForm.OnGenerate images p r ∈ sample_session.2 →
    1 ≤ length images ≤ 3 ∧ ∃ req, buildRequest images p r = inr req.
Proof.
  destruct (form_enforces_image_count
              (λ f, "blob:" +:+ VideoGeneratorForm.name f)
              (λ f, inr (sample_image (VideoGeneratorForm.name f)))
              (λ _, inr [])) as (_ & _ & Hrun).
  eapply Hrun. apply surjective_pairing.
Defined.

(** ** The password endpoint *)

Section EndpointProperties.
Import VerifyPassword.

Lemma handler_stateless req env : (handler req env).2 = env.
Proof.
  unfold handler. repeat case_match; reflexivity.
Qed.

Lemma serve_stateless reqs : ∀ env,
  (serve reqs env).2 = env ∧
  (serve reqs env).1 = (λ req, (handler req env).1) <$> reqs.
Proof.
  induction reqs as [|req reqs IH]; intros env; [done|].
  cbn [serve]. pose proof (handler_stateless req env) as Henv.
  destruct (handler req env) as [r env'] eqn:Hh. cbn [snd] in Henv. subst env'.
  destruct (IH env) as [IH1 IH2].
  destruct (serve reqs env) as [rs env''] eqn:Hs. cbn [fst snd] in *.
  subst. rewrite fmap_cons, Hh. done.
Qed.

Lemma password_string_spec password pw :
  password_string password = Some pw ↔ password = Str pw ∧ pw ≠ "".
Proof.
  unfold password_string, truthy_string.
  destruct password; try (split; [done | by intros [? ?]]).
  destruct (decide (s = "")) as [->|Hne]; split.
  - done.
  - by intros [[= <-] ?].
  - by intros [= <-].
  - by intros [[= <-] ?].
Qed.

End EndpointProperties.

(** C8 (as amended). The endpoint answers 405 to every request that is not
    a POST.  For a POST whose body can be destructured: a missing, empty or
    non-string password gives 400, whatever the configuration; otherwise an
    absent (or empty) secret or API key gives 500; otherwise a password
    different from the secret gives 401; otherwise the answer is 200 with
    the API key.  No request changes the environment, so a sequence of
    requests is answered request by request. *)
Theorem verify_password_decision
    (req : VerifyPassword.VercelRequest) (env : gmap string string) :
  let r := (VerifyPassword.handler req env).1 in
  (VerifyPassword.handler req env).2 = env ∧
  (∀ reqs,
     (VerifyPassword.serve reqs env).2 = env ∧
     (VerifyPassword.serve reqs env).1 =
     (λ q, (VerifyPassword.handler q env).1) <$> reqs) ∧
  (VerifyPassword.method req ≠ "POST" →
   r = inr {| VerifyPassword.statusCode := 405;
              VerifyPassword.json :=
                VerifyPassword.error_json "Method not allowed" |}) ∧
  (VerifyPassword.method req = "POST" →
   ∀ password,
     VerifyPassword.destructure_password (VerifyPassword.body req)
       = inr password →
     ((∀ pw, password = VerifyPassword.Str pw → pw = "") →
      VerifyPassword.status_of r = Some 400) ∧
     (∀ pw,
        password = VerifyPassword.Str pw → pw ≠ "" →
        (¬ VerifyPassword.configured env →
         VerifyPassword.status_of r = Some 500) ∧
        (∀ secret key,
           truthy_string (env !! "ACCESS_PASSWORD") = Some secret →
           truthy_string (env !! "GEMINI_API_KEY") = Some key →
           (pw ≠ secret → VerifyPassword.status_of r = Some 401) ∧
           (pw = secret →
            r = inr {| VerifyPassword.statusCode := 200;
                       VerifyPassword.json :=
                         VerifyPassword.Object
                           {[ "apiKey" := VerifyPassword.Str key ]} |})))).
Proof.
  intros r. subst r. split_and!.
  - apply handler_stateless.
  - intros reqs. apply serve_stateless.
  - intros Hm. unfold VerifyPassword.handler. by rewrite decide_True.
  - intros Hm password Hbody. unfold VerifyPassword.handler.
    rewrite decide_False by (by intros []). rewrite Hbody. split.
    + intros Hpw.
      destruct (VerifyPassword.password_string password) as [pw|] eqn:Hs;
        [|done].
      apply password_string_spec in Hs as [-> Hne]. by specialize (Hpw _ eq_refl).
    + intros pw -> Hne.
      assert (VerifyPassword.password_string (VerifyPassword.Str pw) = Some pw)
        as -> by (by apply password_string_spec).
      split.
      * intros Hcfg. unfold VerifyPassword.configured in Hcfg.
        destruct (truthy_string (env !! "ACCESS_PASSWORD")),
          (truthy_string (env !! "GEMINI_API_KEY")); try done.
        destruct Hcfg. by split.
      * intros secret key -> ->. split; intros Hpw.
        -- by rewrite decide_True.
        -- rewrite decide_False by (by intros ?). done.
Qed.

Lemma verify_password_decision_witness :
  (VerifyPassword.handler
     {| VerifyPassword.method := "POST";
        VerifyPassword.body := password_body "s3cret" |} configured_env).1 =
  inr {| VerifyPassword.statusCode := 200;
         VerifyPassword.json :=
           VerifyPassword.Object
             {[ "apiKey" := VerifyPassword.Str "AIza-key" ]} |}.
Proof.
  destruct (verify_password_decision
              {| VerifyPassword.method := "POST";
                 VerifyPassword.body := password_body "s3cret" |}
              configured_env) as (_ & _ & _ & Hpost).
  destruct (Hpost eq_refl (VerifyPassword.Str "s3cret") eq_refl) as [_ Hstr].
  destruct (Hstr "s3cret" eq_refl) as [_ Hcfg]; [discriminate|].
  destruct (Hcfg "s3cret" "AIza-key") as [_ Hok]; [reflexivity..|].
  apply Hok. reflexivity.
Defined.

(** C8, as first worded. The configuration is not what every request is
    checked against first: a GET carrying the right password to a configured server gets 405, not
    the key, and a POST without a password to a server without
    configuration gets 400, not 500. *)
Lemma method_and_password_checked_before_configuration :
  (VerifyPassword.claimed_status
     {| VerifyPassword.method := "GET";
        VerifyPassword.body := password_body "s3cret" |} configured_env = 200 ∧
   VerifyPassword.status_of
     (VerifyPassword.handler
        {| VerifyPassword.method := "GET";
           VerifyPassword.body := password_body "s3cret" |} configured_env).1
   = Some 405) ∧
  (VerifyPassword.claimed_status
     {| VerifyPassword.method := "POST";
        VerifyPassword.body := VerifyPassword.Object ∅ |} ∅ = 500 ∧
   VerifyPassword.status_of
     (VerifyPassword.handler
        {| VerifyPassword.method := "POST";
           VerifyPassword.body := VerifyPassword.Object ∅ |} ∅).1
   = Some 400).
Proof. vm_compute. done. Qed.

(** * Further properties of the upload form *)

(** Filtering by position removes the element at that position: the
    JavaScript idiom [l.filter((_, i) => i !== index)] is list deletion. *)
Lemma remove_index_offset {A} (l : list A) : ∀ k target,
  snd <$> filter (λ p, p.1 ≠ target) (imap (λ i x, (k + i, x)) l) =
  if decide (k ≤ target) then delete (target - k) l else l.
Proof.
  induction l as [|x l IH]; intros k target.
  - by destruct (decide (k ≤ target)).
  - rewrite imap_cons, filter_cons. cbn [fst].
    rewrite (imap_ext _ (λ i y, (S k + i, y))) by (intros; cbn; f_equal; lia).
    destruct (decide (k + 0 ≠ target)) as [Hne|Heq].
    + rewrite fmap_cons, IH. cbn [snd].
      destruct (decide (k ≤ target)) as [Hle|Hgt].
      * rewrite decide_True by lia.
        replace (target - k) with (S (target - S k)) by lia. reflexivity.
      * rewrite decide_False by lia. reflexivity.
    + rewrite IH, decide_False, decide_True by lia.
      replace (target - k) with 0 by lia. reflexivity.
Qed.

Lemma remove_index_delete {A} index (l : list A) :
  VideoGeneratorForm.remove_index index l = delete index l.
Proof.
  unfold VideoGeneratorForm.remove_index.
  pose proof (remove_index_offset l 0 index) as H.
  rewrite decide_True, Nat.sub_0_r in H by lia. exact H.
Qed.

(** X1. Removing image [index] deletes exactly that file and its preview:
    the entries before it stay in place, the entries after it move up by
    one, and an index beyond the selection changes nothing.  The
    suggestions are reset either way. *)
Theorem handleRemoveImage_deletes_one
    (index : nat) (st : VideoGeneratorForm.FormState) :
  let st' := VideoGeneratorForm.handleRemoveImage index st in
  let files := VideoGeneratorForm.imageFiles st in
  let files' := VideoGeneratorForm.imageFiles st' in
  files' = take index files ++ drop (S index) files ∧
  VideoGeneratorForm.imagePreviews st' =
    take index (VideoGeneratorForm.imagePreviews st)
    ++ drop (S index) (VideoGeneratorForm.imagePreviews st) ∧
  VideoGeneratorForm.suggestions st' = [] ∧
  (∀ j, j < index → files' !! j = files !! j) ∧
  (∀ j, index ≤ j → files' !! j = files !! S j) ∧
  (index < length files → S (length files') = length files) ∧
  (length files ≤ index → files' = files).
Proof.
  intros st' files files'. subst st' files files'.
  unfold VideoGeneratorForm.handleRemoveImage.
  cbn [VideoGeneratorForm.imageFiles VideoGeneratorForm.imagePreviews
       VideoGeneratorForm.suggestions VideoGeneratorForm.setSuggestions
       VideoGeneratorForm.setImages].
  rewrite !remove_index_delete. split_and!.
  - apply delete_take_drop.
  - apply delete_take_drop.
  - reflexivity.
  - intros j Hj. by apply list_lookup_delete_lt.
  - intros j Hj. by apply list_lookup_delete_ge.
  - intros Hlt. rewrite length_delete; [lia|]. by apply lookup_lt_is_Some.
  - intros Hge. rewrite delete_take_drop, take_ge, drop_ge, app_nil_r by lia.
    reflexivity.
Qed.

Lemma handleRemoveImage_deletes_one_witness :
  let st := sample_session.1 in
  S (length (VideoGeneratorForm.imageFiles
               (VideoGeneratorForm.handleRemoveImage 0 st))) =
  length (VideoGeneratorForm.imageFiles st).
Proof.
  destruct (handleRemoveImage_deletes_one 0 sample_session.1)
    as (_ & _ & _ & _ & _ & Hlen & _).
  apply Hlen. vm_compute. lia.
Defined.

Lemma find_first_oversized (limit : nat)
    (pre post : list VideoGeneratorForm.File) (f : VideoGeneratorForm.File) :
  Forall (λ g, VideoGeneratorForm.size g ≤ limit) pre →
  limit < VideoGeneratorForm.size f →
  List.find (λ file, bool_decide (limit < VideoGeneratorForm.size file))
            (pre ++ f :: post) = Some f.
Proof.
  intros Hpre Hf. induction Hpre as [|g pre Hg _ IH]; cbn.
  - by rewrite bool_decide_eq_true_2.
  - rewrite bool_decide_eq_false_2 by lia. exact IH.
Qed.

Lemma find_no_oversized (limit : nat) (files : list VideoGeneratorForm.File) :
  Forall (λ g, VideoGeneratorForm.size g ≤ limit) files ↔
  List.find (λ file, bool_decide (limit < VideoGeneratorForm.size file)) files
  = None.
Proof.
  induction files as [|g files IH]; cbn; [done|].
  rewrite Forall_cons. case_bool_decide as Hg.
  - split; [intros [? _]; lia | done].
  - rewrite <- IH. split; [by intros [_ ?] | intros ?; split; [lia | done]].
Qed.

(** X2. A file above 10 MB is refused: when the count would be fine but
    some file is larger than 10 * 1024 * 1024 bytes, nothing is added to the
    selection and the error names the first such file. *)
Theorem oversized_file_is_refused
    (objectURL : VideoGeneratorForm.File → string)
    (st : VideoGeneratorForm.FormState)
    (pre post : list VideoGeneratorForm.File) (f : VideoGeneratorForm.File) :
  length (VideoGeneratorForm.imageFiles st) + length (pre ++ f :: post) ≤ 3 →
  Forall (λ g, VideoGeneratorForm.size g ≤ 10 * 1024 * 1024) pre →
  10 * 1024 * 1024 < VideoGeneratorForm.size f →
  let st' := VideoGeneratorForm.handleFileChange objectURL
               (Some (pre ++ f :: post)) st in
  VideoGeneratorForm.imageFiles st' = VideoGeneratorForm.imageFiles st ∧
  VideoGeneratorForm.imagePreviews st' = VideoGeneratorForm.imagePreviews st ∧
  VideoGeneratorForm.error st' =
    Some ("File " +:+ VideoGeneratorForm.dquote +:+ VideoGeneratorForm.name f
          +:+ VideoGeneratorForm.dquote +:+ " exceeds 10MB limit.").
Proof.
  intros Hcount Hpre Hf st'. subst st'.
  unfold VideoGeneratorForm.handleFileChange.
  destruct (pre ++ f :: post) as [|g gs] eqn:Hfiles.
  { by destruct pre. }
  rewrite decide_False by lia. rewrite <- Hfiles.
  rewrite (find_first_oversized _ _ _ _ Hpre Hf). done.
Qed.

Lemma oversized_file_is_refused_witness :
  let big := {| VideoGeneratorForm.name := "big.png";
                VideoGeneratorForm.size := 10 * 1024 * 1024 + 1 |} in
  let st' := VideoGeneratorForm.handleFileChange
               (λ f, "blob:" +:+ VideoGeneratorForm.name f)
               (Some ([sample_file "a.png"] ++ big :: []))
               VideoGeneratorForm.initial in
  VideoGeneratorForm.imageFiles st' = [] ∧
  VideoGeneratorForm.imagePreviews st' = [] ∧
  VideoGeneratorForm.error st' =
    Some ("File " +:+ VideoGeneratorForm.dquote +:+ "big.png"
          +:+ VideoGeneratorForm.dquote +:+ " exceeds 10MB limit.").
Proof.
  apply (oversized_file_is_refused
           (λ f, "blob:" +:+ VideoGeneratorForm.name f)
           VideoGeneratorForm.initial [sample_file "a.png"] []
           {| VideoGeneratorForm.name := "big.png";
              VideoGeneratorForm.size := 10 * 1024 * 1024 + 1 |}).
  - cbn [length app VideoGeneratorForm.imageFiles VideoGeneratorForm.initial].
    lia.
  - apply Forall_cons_2; [|apply Forall_nil_2].
    cbn [VideoGeneratorForm.size sample_file]. lia.
  - cbn [VideoGeneratorForm.size]. lia.
Defined.

(** X3. New files are taken exactly when there is at least one, the
    selection stays within 3 and no file exceeds 10 MB: they are then
    appended in order, each with its preview, the error and the suggestions
    are cleared and the prompt and aspect ratio are kept.  In every other
    case the selection and the previews are left as they were. *)
Theorem handleFileChange_accepts_iff
    (objectURL : VideoGeneratorForm.File → string)
    (st : VideoGeneratorForm.FormState)
    (files : list VideoGeneratorForm.File) :
  let st' := VideoGeneratorForm.handleFileChange objectURL (Some files) st in
  let acceptable :=
    files ≠ [] ∧
    length (VideoGeneratorForm.imageFiles st) + length files ≤ 3 ∧
    Forall (λ g, VideoGeneratorForm.size g ≤ 10 * 1024 * 1024) files in
  (acceptable →
   st' = {| VideoGeneratorForm.imageFiles :=
              VideoGeneratorForm.imageFiles st ++ files;
            VideoGeneratorForm.imagePreviews :=
              VideoGeneratorForm.imagePreviews st ++ (objectURL <$> files);
            VideoGeneratorForm.prompt := VideoGeneratorForm.prompt st;
            VideoGeneratorForm.aspectRatio :=
              VideoGeneratorForm.aspectRatio st;
            VideoGeneratorForm.error := None;
            VideoGeneratorForm.suggestions := [];
            VideoGeneratorForm.isSuggesting :=
              VideoGeneratorForm.isSuggesting st |}) ∧
  (¬ acceptable →
   VideoGeneratorForm.imageFiles st' = VideoGeneratorForm.imageFiles st ∧
   VideoGeneratorForm.imagePreviews st' =
     VideoGeneratorForm.imagePreviews st).
Proof.
  intros st' acceptable. subst st' acceptable.
  unfold VideoGeneratorForm.handleFileChange. split.
  - intros (Hne & Hcount & Hsize).
    destruct files as [|f fs]; [done|].
    rewrite decide_False by lia.
    apply find_no_oversized in Hsize. rewrite Hsize. reflexivity.
  - intros Hnot. destruct files as [|f fs]; [done|].
    destruct (decide (3 < _)) as [Hmany|Hfew]; [done|].
    destruct (List.find _ (f :: fs)) eqn:Hfind; [done|].
    apply find_no_oversized in Hfind. destruct Hnot.
    split_and!; [done | lia | done].
Qed.

Lemma handleFileChange_accepts_iff_witness :
  VideoGeneratorForm.imageFiles
    (VideoGeneratorForm.handleFileChange
       (λ f, "blob:" +:+ VideoGeneratorForm.name f)
       (Some [sample_file "a.png"; sample_file "b.png"])
       VideoGeneratorForm.initial) =
  [sample_file "a.png"; sample_file "b.png"].
Proof.
  destruct (handleFileChange_accepts_iff
              (λ f, "blob:" +:+ VideoGeneratorForm.name f)
              VideoGeneratorForm.initial
              [sample_file "a.png"; sample_file "b.png"]) as [Hacc _].
  rewrite Hacc; [reflexivity|].
  split_and!.
  - discriminate.
  - cbn [length VideoGeneratorForm.imageFiles VideoGeneratorForm.initial].
    lia.
  - repeat (apply Forall_cons_2; [|try apply Forall_nil_2]);
      cbn [VideoGeneratorForm.size sample_file]; lia.
Defined.

Lemma step_previews objectURL fileToGenerativePart suggestPrompts a st :
  VideoGeneratorForm.imagePreviews st =
    objectURL <$> VideoGeneratorForm.imageFiles st →
  let st' := (VideoGeneratorForm.step objectURL fileToGenerativePart
                suggestPrompts a st).1 in
  VideoGeneratorForm.imagePreviews st' =
    objectURL <$> VideoGeneratorForm.imageFiles st'.
Proof.
  intros Hst st'. subst st'. destruct a as [files|index|p|r| |];
    cbn [VideoGeneratorForm.step fst].
  - unfold VideoGeneratorForm.handleFileChange.
    destruct files as [[|f fs]|]; try done.
    destruct (decide _); [done|]. destruct (List.find _ _); [done|].
    cbn. by rewrite Hst, fmap_app.
  - unfold VideoGeneratorForm.handleRemoveImage. cbn.
    by rewrite !remove_index_delete, Hst, list_fmap_delete.
  - done.
  - done.
  - unfold VideoGeneratorForm.handleSuggestPrompts.
    destruct (VideoGeneratorForm.imageFiles st) eqn:Hfiles;
      [by rewrite Hst, Hfiles|].
    destruct (fileToGenerativePart _); [|destruct (suggestPrompts _)];
      cbn; by rewrite Hst, Hfiles.
  - unfold VideoGeneratorForm.handleSubmit.
    repeat case_match; cbn; done.
Qed.

(** X4. In every session that starts from the initial form the previews
    stay aligned with the selection: preview [i] is the object URL made for
    file [i], so there are as many previews as files and every preview the
    form renders has the file whose name it shows. *)
Theorem previews_follow_the_selection
    (objectURL : VideoGeneratorForm.File → string)
    (fileToGenerativePart : VideoGeneratorForm.File → Exn + ImageInput)
    (suggestPrompts : ImageInput → Exn + list string)
    (actions : list VideoGeneratorForm.Action) :
  let st := (VideoGeneratorForm.run objectURL fileToGenerativePart
               suggestPrompts actions VideoGeneratorForm.initial).1 in
  VideoGeneratorForm.imagePreviews st =
    objectURL <$> VideoGeneratorForm.imageFiles st ∧
  length (VideoGeneratorForm.imagePreviews st) =
    length (VideoGeneratorForm.imageFiles st) ∧
  ∀ i preview,
    VideoGeneratorForm.imagePreviews st !! i = Some preview →
    ∃ file, VideoGeneratorForm.imageFiles st !! i = Some file ∧
            preview = objectURL file.
Proof.
  intros st.
  assert (Hinv : VideoGeneratorForm.imagePreviews st =
                 objectURL <$> VideoGeneratorForm.imageFiles st).
  { subst st.
    assert (Hgen : ∀ st0,
      VideoGeneratorForm.imagePreviews st0 =
        objectURL <$> VideoGeneratorForm.imageFiles st0 →
      VideoGeneratorForm.imagePreviews
        (VideoGeneratorForm.run objectURL fileToGenerativePart suggestPrompts
           actions st0).1 =
      objectURL <$> VideoGeneratorForm.imageFiles
        (VideoGeneratorForm.run objectURL fileToGenerativePart suggestPrompts
           actions st0).1).
    { induction actions as [|a actions IH]; intros st0 Hst0; [done|].
      cbn [VideoGeneratorForm.run].
      pose proof (step_previews objectURL fileToGenerativePart suggestPrompts
                    a st0 Hst0) as Hstep. cbn zeta in Hstep.
      destruct (VideoGeneratorForm.step _ _ _ a st0) as [st1 calls1].
      specialize (IH st1 Hstep).
      destruct (VideoGeneratorForm.run _ _ _ actions st1) as [st2 calls2].
      exact IH. }
    by apply Hgen. }
  split_and!.
  - exact Hinv.
  - by rewrite Hinv, length_fmap.
  - intros i preview. rewrite Hinv, list_lookup_fmap.
    destruct (VideoGeneratorForm.imageFiles st !! i) as [file|]; [|done].
    intros [= <-]. by exists file.
Qed.

Lemma promise_all_Forall2 convert files : ∀ parts,
  VideoGeneratorForm.promise_all convert files = inr parts ↔
  Forall2 (λ f part, convert f = inr part) files parts.
Proof.
  induction files as [|f files IH]; intros parts;
    cbn [VideoGeneratorForm.promise_all].
  - split; [intros [= <-]; constructor | by inversion 1].
  - split.
    + destruct (convert f) as [e|part] eqn:Hf; [done|].
      destruct (VideoGeneratorForm.promise_all convert files) as [e|ps];
        [done|].
      intros [= <-]. constructor; [done|]. by apply IH.
    + inversion 1 as [|? part ? ps Hf Hrest]; subst. rewrite Hf.
      apply IH in Hrest. by rewrite Hrest.
Qed.

Lemma promise_all_rejects convert files e :
  VideoGeneratorForm.promise_all convert files = inl e →
  ∃ f, f ∈ files ∧ convert f = inl e.
Proof.
  induction files as [|f files IH]; cbn [VideoGeneratorForm.promise_all];
    [done|].
  destruct (convert f) as [e'|part] eqn:Hf.
  - intros [= <-]. exists f. split; [left | done].
  - destruct (VideoGeneratorForm.promise_all convert files) as [e'|ps];
      [|done].
    intros [= <-]. destruct IH as (g & Hg & Hcg); [done|].
    exists g. split; [by right | done].
Qed.

(** X5. Submitting calls [onGenerate] at most once, and exactly when an
    image is selected, the prompt is not empty and every image converts: the
    call then carries the converted images in the order of the selection
    with the form's prompt and aspect ratio, and the error is cleared.  An
    empty prompt gives the validation error, and a failed conversion gives
    "Failed to process images: " with the failure's message; neither
    calls [onGenerate]. *)
Theorem handleSubmit_calls_onGenerate_iff
    (fileToGenerativePart : VideoGeneratorForm.File → Exn + ImageInput)
    (st : VideoGeneratorForm.FormState) :
  let r := VideoGeneratorForm.handleSubmit fileToGenerativePart st in
  (∀ parts,
     VideoGeneratorForm.imageFiles st ≠ [] →
     VideoGeneratorForm.prompt st ≠ "" →
     Forall2 (λ f part, fileToGenerativePart f = inr part)
             (VideoGeneratorForm.imageFiles st) parts →
     r = (VideoGeneratorForm.setError None st,
          [VideoGeneratorForm.OnGenerate parts (VideoGeneratorForm.prompt st)
             (VideoGeneratorForm.aspectRatio st)])) ∧
  (∀ images p ratio,
     VideoGeneratorForm.OnGenerate images p ratio ∈ r.2 →
     r.2 = [VideoGeneratorForm.OnGenerate images p ratio] ∧
     Forall2 (λ f part, fileToGenerativePart f = inr part)
             (VideoGeneratorForm.imageFiles st) images ∧
     VideoGeneratorForm.imageFiles st ≠ [] ∧
     p = VideoGeneratorForm.prompt st ∧ p ≠ "" ∧
     ratio = VideoGeneratorForm.aspectRatio st ∧
     VideoGeneratorForm.error r.1 = None) ∧
  (VideoGeneratorForm.prompt st = "" →
   r = (VideoGeneratorForm.setError
          (Some "Please provide at least one image and a prompt.") st, [])) ∧
  (VideoGeneratorForm.imageFiles st ≠ [] →
   VideoGeneratorForm.prompt st ≠ "" →
   Exists (λ f, ∃ e, fileToGenerativePart f = inl e)
          (VideoGeneratorForm.imageFiles st) →
   r.2 = [] ∧
   ∃ f e, f ∈ VideoGeneratorForm.imageFiles st ∧
          fileToGenerativePart f = inl e ∧
          VideoGeneratorForm.error r.1 =
            Some ("Failed to process images: " +:+ exn_message e)).
Proof.
  intros r. subst r. unfold VideoGeneratorForm.handleSubmit. split_and!.
  - intros parts Hfiles Hprompt Hall.
    rewrite bool_decide_eq_false_2, bool_decide_eq_false_2 by
      (done || by destruct (VideoGeneratorForm.imageFiles st)).
    apply promise_all_Forall2 in Hall. cbn. by rewrite Hall.
  - intros images p ratio.
    case_bool_decide as Hfiles; [cbn; by intros ?%elem_of_nil|].
    case_bool_decide as Hprompt; [cbn; by intros ?%elem_of_nil|].
    cbn [orb VideoGeneratorForm.imageFiles VideoGeneratorForm.setError].
    destruct (VideoGeneratorForm.promise_all _ _) as [e|parts] eqn:Hall;
      [cbn; by intros ?%elem_of_nil|].
    cbn. intros [= -> -> ->]%list_elem_of_singleton.
    apply promise_all_Forall2 in Hall.
    split_and!; try done. by destruct (VideoGeneratorForm.imageFiles st).
  - intros ->. by rewrite orb_true_r.
  - intros Hfiles Hprompt Hfail.
    rewrite bool_decide_eq_false_2, bool_decide_eq_false_2 by
      (done || by destruct (VideoGeneratorForm.imageFiles st)).
    cbn [orb VideoGeneratorForm.imageFiles VideoGeneratorForm.setError].
    destruct (VideoGeneratorForm.promise_all _ _) as [e|parts] eqn:Hall.
    + cbn. split; [done|].
      apply promise_all_rejects in Hall as (f & Hf & Hcf). by exists f, e.
    + apply promise_all_Forall2 in Hall. exfalso.
      apply Exists_exists in Hfail as (f & Hf & e & Hcf).
      apply list_elem_of_lookup in Hf as [i Hi].
      destruct (Forall2_lookup_l _ _ _ _ _ Hall Hi) as (part & _ & Hpart).
      congruence.
Qed.

Lemma handleSubmit_calls_onGenerate_iff_witness :
  VideoGeneratorForm.handleSubmit (λ f, inr (sample_image (VideoGeneratorForm.name f)))
    (VideoGeneratorForm.setImages [sample_file "a.png"] ["blob:a.png"]
       VideoGeneratorForm.initial) =
  (VideoGeneratorForm.setError None
     (VideoGeneratorForm.setImages [sample_file "a.png"] ["blob:a.png"]
        VideoGeneratorForm.initial),
   [VideoGeneratorForm.OnGenerate [sample_image "a.png"]
      "Bring this memory to life with gentle, nostalgic motion." Ratio_16_9]).
Proof.
  destruct (handleSubmit_calls_onGenerate_iff
              (λ f, inr (sample_image (VideoGeneratorForm.name f)))
              (VideoGeneratorForm.setImages [sample_file "a.png"]
                 ["blob:a.png"] VideoGeneratorForm.initial)) as [Hcall _].
  apply (Hcall [sample_image "a.png"]).
  - discriminate.
  - discriminate.
  - repeat constructor.
Defined.

Lemma previews_follow_the_selection_witness :
  ∃ file,
    VideoGeneratorForm.imageFiles sample_session.1 !! 1 = Some file ∧
    "blob:b.png" = "blob:" +:+ VideoGeneratorForm.name file.
Proof.
  destruct (previews_follow_the_selection
              (λ f, "blob:" +:+ VideoGeneratorForm.name f)
              (λ f, inr (sample_image (VideoGeneratorForm.name f)))
              (λ _, inr [])
              [VideoGeneratorForm.Submit;
               VideoGeneratorForm.FileChange
                 (Some [sample_file "a.png"; sample_file "b.png"]);
               VideoGeneratorForm.FileChange
                 (Some [sample_file "c.png"; sample_file "d.png"]);
               VideoGeneratorForm.Submit]) as (_ & _ & Hpreview).
  apply (Hpreview 1 "blob:b.png"). reflexivity.
Defined.

(** * Further properties of [generateVideo] *)

(** X6. A submission that the backend rejects is propagated as it is, and
    one that never settles leaves [generateVideo] pending: in both cases
    the submission is the only thing that happened, no loading message was
    shown and no status check was made. *)
Theorem failed_submission_stops_everything
    env images prompt ratio apiKey req :
  buildRequest images prompt ratio = inr req →
  (∀ e, generateVideos env req = Rejected e →
        generateVideo env images prompt ratio apiKey [] =
        (Rejected e, [GenerateVideos req])) ∧
  (generateVideos env req = Pending →
   generateVideo env images prompt ratio apiKey [] =
   (Pending, [GenerateVideos req])).
Proof.
  intros Hreq. unfold generateVideo. rewrite Hreq.
  unfold mbind at 1, M_bind at 1, await. cbn [app].
  split; [intros e|]; intros ->; reflexivity.
Qed.

Lemma failed_submission_stops_everything_witness :
  generateVideo
    {| generateVideos := λ _, Rejected (Error "quota exceeded");
       getVideosOperation := [];
       fetch := λ _, Pending;
       createObjectURL := λ content, content |}
    [sample_image "a"] "wave" Ratio_16_9 "KEY" [] =
  (Rejected (Error "quota exceeded"),
   [GenerateVideos
      {| model := "veo-3.1-fast-generate-preview"; prompt := "wave";
         image := Some {| imageBytes := "a"; image_mimeType := "image/png" |};
         config := base_config Ratio_16_9 |}]).
Proof.
  eapply (failed_submission_stops_everything
            {| generateVideos := λ _, Rejected (Error "quota exceeded");
               getVideosOperation := [];
               fetch := λ _, Pending;
               createObjectURL := λ content, content |}
            [sample_image "a"] "wave" Ratio_16_9 "KEY").
  - reflexivity.
  - reflexivity.
Defined.

(** A loop that only ever hears "not finished". *)
Lemma pollLoop_never_done op0 ops :
  done op0 = false →
  Forall (λ op, done op = false) ops →
  pollLoop (Resolved <$> ops) (MkLoopState op0 0) [] =
  (Pending,
   poll_events 0 op0 ops ++
   [Sleep 5000;
    SetLoadingMessage
      (LOADING_MESSAGES !! (S (length ops) `mod` length LOADING_MESSAGES));
    GetVideosOperation (List.last ops op0)]).
Proof.
  intros Hrun Hops.
  destruct (pollLoop_running ops (MkLoopState op0 0) [] [])
    as [Hloop Hlast]; [done | simpl; lia | done |].
  cbn [operation messageIndex] in Hloop, Hlast.
  rewrite app_nil_r in Hloop. rewrite Hloop. cbn [pollLoop operation].
  rewrite Hlast, pollIteration_pending.
  cbn [operation messageIndex app].
  rewrite Nat.Div0.add_mod_idemp_l.
  replace (0 + length ops + 1) with (S (length ops)) by lia. reflexivity.
Qed.

(** X7. The loop has no bound on the number of polls: as long as every
    answer says the operation is not finished, [generateVideo] asks again,
    once more than it got answers, and it neither returns nor fails nor
    fetches anything. *)
Theorem polling_is_unbounded env images prompt ratio apiKey req op0 ops :
  buildRequest images prompt ratio = inr req →
  generateVideos env req = Resolved op0 →
  done op0 = false →
  Forall (λ op, done op = false) ops →
  getVideosOperation env = Resolved <$> ops →
  let r := generateVideo env images prompt ratio apiKey [] in
  outcome r = Pending ∧
  status_checks (trace r) = S (length ops) ∧
  fetched (trace r) = [].
Proof.
  intros Hreq Hsub Hrun Hops Hreplies r. subst r.
  rewrite (generateVideo_after_submit _ _ _ _ _ _ _ Hreq Hsub).
  rewrite Hreplies, (pollLoop_never_done _ _ Hrun Hops).
  cbn [fst snd outcome trace]. split_and!.
  - reflexivity.
  - rewrite !status_checks_app, status_checks_poll_events,
      !status_checks_cons.
    cbn [is_status_check]. unfold status_checks. rewrite filter_nil.
    cbn [length]. lia.
  - unfold fetched. rewrite !omap_app.
    assert (Hloop : ∀ i prev,
      omap (λ ev, match ev with Fetch url => Some url | _ => None end)
           (poll_events i prev ops) = []).
    { clear. induction ops as [|op ops IH]; intros i prev; [done|].
      cbn [poll_events]. rewrite omap_app, IH. reflexivity. }
    rewrite Hloop. reflexivity.
Qed.

Lemma polling_is_unbounded_witness :
  let r := generateVideo (sample_env (Resolved <$> replicate 9 running_operation))
             [sample_image "a"] "wave" Ratio_16_9 "KEY" [] in
  outcome r = Pending ∧
  status_checks (trace r) = 10 ∧
  fetched (trace r) = [].
Proof.
  eapply (polling_is_unbounded
            (sample_env (Resolved <$> replicate 9 running_operation))
            [sample_image "a"] "wave" Ratio_16_9 "KEY" _ running_operation
            (replicate 9 running_operation)).
  - reflexivity.
  - reflexivity.
  - reflexivity.
  - repeat constructor.
  - reflexivity.
Defined.

Lemma downloadVideo_run env link apiKey :
  downloadVideo env link apiKey [] =
  let url := link +:+ "&key=" +:+ apiKey in
  let pre := [SetLoadingMessage (Some "Fetching generated video...");
              Fetch url] in
  match fetch env url with
  | Resolved resp =>
      if ok resp then
        match blob resp with
        | Resolved content =>
            (Resolved (createObjectURL env content),
             pre ++ [ReadBlob; CreateObjectURL content])
        | Rejected e => (Rejected e, pre ++ [ReadBlob])
        | Pending => (Pending, pre ++ [ReadBlob])
        end
      else
        (Rejected (Error ("Failed to download video: " +:+ statusText resp)),
         pre)
  | Rejected e => (Rejected e, pre)
  | Pending => (Pending, pre)
  end.
Proof.
  unfold downloadVideo, mbind, M_bind, emit, await, throw, mret, M_ret.
  cbn [app]. destruct (fetch env _) as [resp|e|]; try reflexivity.
  destruct (ok resp); cbn [negb]; [|reflexivity].
  destruct (blob resp); reflexivity.
Qed.

Lemma fetched_pollLoop replies : ∀ s t,
  fetched (pollLoop replies s t).2 = fetched t.
Proof.
  assert (Hstep : ∀ reply s t,
    fetched (pollIteration reply s t).2 = fetched t).
  { intros [op|e|] s t;
      rewrite ?pollIteration_resolved, ?pollIteration_rejected,
        ?pollIteration_pending; cbn [snd poll_events]; unfold fetched;
      rewrite omap_app; cbn; by rewrite app_nil_r. }
  induction replies as [|reply replies IH]; intros s t; cbn [pollLoop];
    destruct (done (operation s)); try done.
  unfold mbind, M_bind. specialize (Hstep reply s t).
  destruct (pollIteration reply s t) as [[s'|e|] t']; cbn [snd] in *;
    [by rewrite IH | done | done].
Qed.

(** X8. When the loop ends with an operation whose first entry carries a
    locator, and the download answers with a success status and a body,
    [generateVideo] returns the handle [URL.createObjectURL] makes from
    that body.  Exactly one URL is fetched, the locator followed by
    "&key=" and the API key, and the last four things that happen are
    the "Fetching generated video..." message, the fetch, the reading of
    the body and the creation of the handle. *)
Theorem successful_run_returns_the_handle
    env images prompt ratio apiKey req op0 s link resp content :
  buildRequest images prompt ratio = inr req →
  generateVideos env req = Resolved op0 →
  (pollLoop (getVideosOperation env) (MkLoopState op0 0) []).1 = Resolved s →
  classify (operation s) = Success link →
  fetch env (link +:+ "&key=" +:+ apiKey) = Resolved resp →
  ok resp = true →
  blob resp = Resolved content →
  let r := generateVideo env images prompt ratio apiKey [] in
  outcome r = Resolved (createObjectURL env content) ∧
  fetched (trace r) = [link +:+ "&key=" +:+ apiKey] ∧
  ∃ t, trace r =
       t ++ [SetLoadingMessage (Some "Fetching generated video...");
             Fetch (link +:+ "&key=" +:+ apiKey);
             ReadBlob;
             CreateObjectURL content].
Proof.
  intros Hreq Hsub Hloop Hc Hfetch Hok Hblob r. subst r.
  rewrite (generateVideo_after_loop _ _ _ _ _ _ _ _ Hreq Hsub Hloop).
  rewrite Hc. cbn zeta. rewrite downloadVideo_run. cbn zeta.
  rewrite Hfetch, Hok, Hblob. cbn [outcome trace fst snd resolver_log].
  split_and!.
  - reflexivity.
  - unfold fetched. rewrite !omap_app.
    fold (fetched (pollLoop (getVideosOperation env) (MkLoopState op0 0) []).2).
    rewrite fetched_pollLoop. reflexivity.
  - eexists. rewrite app_nil_r. reflexivity.
Qed.

Lemma successful_run_returns_the_handle_witness :
  let r := generateVideo
             (sample_env [Resolved running_operation;
                          Resolved (finished_operation "https://v/1?alt=media")])
             [sample_image "a"] "wave" Ratio_16_9 "KEY" [] in
  outcome r = Resolved ("blob:" +:+ "mp4") ∧
  fetched (trace r) = ["https://v/1?alt=media" +:+ "&key=" +:+ "KEY"] ∧
  ∃ t, trace r =
       t ++ [SetLoadingMessage (Some "Fetching generated video...");
             Fetch ("https://v/1?alt=media" +:+ "&key=" +:+ "KEY");
             ReadBlob;
             CreateObjectURL "mp4"].
Proof.
  eapply (successful_run_returns_the_handle
            (sample_env [Resolved running_operation;
                         Resolved (finished_operation "https://v/1?alt=media")])
            [sample_image "a"] "wave" Ratio_16_9 "KEY" _ running_operation
            (MkLoopState (finished_operation "https://v/1?alt=media") 2)
            "https://v/1?alt=media"
            {| ok := true; statusText := "OK"; blob := Resolved "mp4" |}
            "mp4");
    reflexivity.
Defined.

(** X9. A transport failure during the download is propagated as it is:
    when the fetch itself rejects, or answers with a success status and the
    body cannot be read, [generateVideo] rejects with that same value and
    no handle is created. *)
Theorem download_transport_failure_propagates
    env images prompt ratio apiKey req op0 s link e :
  buildRequest images prompt ratio = inr req →
  generateVideos env req = Resolved op0 →
  (pollLoop (getVideosOperation env) (MkLoopState op0 0) []).1 = Resolved s →
  classify (operation s) = Success link →
  fetch env (link +:+ "&key=" +:+ apiKey) = Rejected e ∨
  (∃ resp, fetch env (link +:+ "&key=" +:+ apiKey) = Resolved resp ∧
           ok resp = true ∧ blob resp = Rejected e) →
  let r := generateVideo env images prompt ratio apiKey [] in
  outcome r = Rejected e ∧
  ∀ content, CreateObjectURL content ∉ trace r.
Proof.
  intros Hreq Hsub Hloop Hc Hfail r. subst r.
  cut (outcome (generateVideo env images prompt ratio apiKey []) = Rejected e
       ∧ filter (λ ev, is_handle_creation ev = true)
           (trace (generateVideo env images prompt ratio apiKey []))
         ⊆ [ReadBlob]).
  { intros [Hout Hsub']. split; [done|]. intros content Hin.
    assert (CreateObjectURL content ∈ [ReadBlob]) as Habs.
    { apply Hsub'. by apply list_elem_of_filter. }
    by apply list_elem_of_singleton in Habs. }
  rewrite (generateVideo_after_loop _ _ _ _ _ _ _ _ Hreq Hsub Hloop).
  rewrite Hc. cbn zeta. rewrite downloadVideo_run. cbn zeta.
  assert (Hpre : filter (λ ev, is_handle_creation ev = true)
                   (pollLoop (getVideosOperation env) (MkLoopState op0 0) []).2
                 = []).
  { apply filter_loop_events; [by intros []|].
    apply pollLoop_loop_events. constructor. }
  destruct Hfail as [Hfetch|(resp & Hfetch & Hok & Hblob)].
  - rewrite Hfetch. cbn [outcome trace fst snd resolver_log].
    split; [done|]. rewrite !filter_app, Hpre. cbn. set_solver.
  - rewrite Hfetch, Hok, Hblob. cbn [outcome trace fst snd resolver_log].
    split; [done|]. rewrite !filter_app, Hpre. cbn. set_solver.
Qed.

Lemma download_transport_failure_propagates_witness :
  let env := {| generateVideos :=
                  λ _, Resolved (finished_operation "https://v/1?alt=media");
                getVideosOperation := [];
                fetch := λ _, Rejected (MkExn "TypeError" "Failed to fetch");
                createObjectURL := λ content, content |} in
  let r := generateVideo env [sample_image "a"] "wave" Ratio_16_9 "KEY" [] in
  outcome r = Rejected (MkExn "TypeError" "Failed to fetch") ∧
  ∀ content, CreateObjectURL content ∉ trace r.
Proof.
  eapply (download_transport_failure_propagates
            {| generateVideos :=
                 λ _, Resolved (finished_operation "https://v/1?alt=media");
               getVideosOperation := [];
               fetch := λ _, Rejected (MkExn "TypeError" "Failed to fetch");
               createObjectURL := λ content, content |}
            [sample_image "a"] "wave" Ratio_16_9 "KEY" _
            (finished_operation "https://v/1?alt=media")
            (MkLoopState (finished_operation "https://v/1?alt=media") 0)
            "https://v/1?alt=media").
  - reflexivity.
  - reflexivity.
  - reflexivity.
  - reflexivity.
  - left. reflexivity.
Defined.






(** * Prompt suggestions *)

(** X11. [suggestPrompts] returns at most 3 suggestions, the first three of
    the [suggestions] array of the parsed answer in their order; an answer
    that parses to something without a [suggestions] array gives the empty
    list; and whatever goes wrong (the call rejects, the answer has no
    text, the text does not parse, the parsed value is [null]) reaches the
    caller as the one error "Failed to generate prompt suggestions.". *)
Theorem suggestPrompts_at_most_three
    (trim : string → string) (JSON_parse : string → Exn + Json.Value)
    (reply : Outcome (option string)) :
  let r := suggestPrompts trim JSON_parse reply in
  (∀ l, r = Resolved l → length l ≤ 3) ∧
  (∀ e, r = Rejected e → e = Error "Failed to generate prompt suggestions.") ∧
  (∀ text fields items,
     reply = Resolved (Some text) →
     JSON_parse (trim text) = inr (Json.Object fields) →
     fields !! "suggestions" = Some (Json.Array items) →
     r = Resolved (take 3 items)) ∧
  (∀ text result v,
     reply = Resolved (Some text) →
     JSON_parse (trim text) = inr result →
     Json.get "suggestions" result = inr v →
     (∀ items, v ≠ Json.Array items) →
     r = Resolved []) ∧
  ((reply = Resolved None ∨
    (∃ e, reply = Rejected e) ∨
    (∃ text e, reply = Resolved (Some text) ∧ JSON_parse (trim text) = inl e) ∨
    (∃ text, reply = Resolved (Some text) ∧
             JSON_parse (trim text) = inr Json.Null)) →
   r = Rejected (Error "Failed to generate prompt suggestions.")).
Proof.
  intros r. subst r. unfold suggestPrompts, suggestPrompts_try. split_and!.
  - intros l. repeat case_match; intros [= <-]; simplify_eq/=;
      rewrite ?length_take; lia.
  - intros e. repeat case_match; by intros [= <-].
  - intros text fields items -> -> Hitems. cbn. by rewrite Hitems.
  - intros text result v -> -> -> Hv. destruct v; try done.
    by destruct (Hv items).
  - intros [->|[[e ->]|[(text & e & -> & ->)|(text & -> & ->)]]]; done.
Qed.

Lemma suggestPrompts_at_most_three_witness :
  suggestPrompts (λ s, s)
    (λ _, inr (Json.Object
                 {[ "suggestions" :=
                      Json.Array [Json.Str "a"; Json.Str "b"; Json.Str "c";
                                  Json.Str "d"] ]}))
    (Resolved (Some "{...}")) =
  Resolved (take 3 [Json.Str "a"; Json.Str "b"; Json.Str "c"; Json.Str "d"]).
Proof.
  destruct (suggestPrompts_at_most_three (λ s, s)
              (λ _, inr (Json.Object
                 {[ "suggestions" :=
                      Json.Array [Json.Str "a"; Json.Str "b"; Json.Str "c";
                                  Json.Str "d"] ]}))
              (Resolved (Some "{...}"))) as (_ & _ & Htake & _).
  eapply Htake; reflexivity.
Defined.

(** * The application shell *)

Lemma string_app_cons (c : Ascii.ascii) (a p : string) :
  String c a +:+ p = String c (a +:+ p).
Proof. reflexivity. Qed.

Lemma string_app_assoc (a b c : string) :
  (a +:+ b) +:+ c = a +:+ b +:+ c.
Proof.
  induction a as [|x a IH]; [done|]. by rewrite !string_app_cons, IH.
Qed.

Lemma prefix_spec (a s : string) :
  String.prefix a s = true ↔ ∃ post, s = a +:+ post.
Proof.
  revert a. induction s as [|c' s IH]; intros [|c a]; cbn.
  - split; [intros _; by exists "" | done].
  - split; [done | by intros [? ?]].
  - split; [intros _; by exists (String c' s) | done].
  - destruct (Ascii.ascii_dec c c') as [->|Hne].
    + rewrite IH. split; intros [post Hpost]; exists post;
        rewrite string_app_cons in *; congruence.
    + split; [done|]. intros [post Hpost].
      rewrite string_app_cons in Hpost. congruence.
Qed.

(** [includes] is the substring test. *)
Lemma includes_spec (needle s : string) :
  includes needle s = true ↔ ∃ pre post, s = pre +:+ needle +:+ post.
Proof.
  induction s as [|c s IH]; cbn [includes].
  - destruct (String.prefix needle "") eqn:Hp.
    + apply prefix_spec in Hp as [post Hpost]. split; [|done].
      intros _. exists "", post. exact Hpost.
    + split; [done|]. intros ([|? ?] & post & Heq).
      * assert (String.prefix needle "" = true) as Habs
          by (apply prefix_spec; exists post; exact Heq).
        congruence.
      * rewrite string_app_cons in Heq. discriminate.
  - destruct (String.prefix needle (String c s)) eqn:Hp.
    + apply prefix_spec in Hp as [post Hpost]. split; [|done].
      intros _. exists "", post. exact Hpost.
    + rewrite IH. split.
      * intros (pre & post & ->). exists (String c pre), post. reflexivity.
      * intros ([|c' pre] & post & Heq).
        -- assert (String.prefix needle (String c s) = true) as Habs
             by (apply prefix_spec; exists post; exact Heq).
           congruence.
        -- rewrite string_app_cons in Heq. injection Heq as -> ->.
           by exists pre, post.
Qed.

Lemma show_messages_fields t : ∀ st,
  App.apiKeySelected (App.show_messages t st) = App.apiKeySelected st ∧
  App.videoUrl (App.show_messages t st) = App.videoUrl st ∧
  App.isGenerating (App.show_messages t st) = App.isGenerating st ∧
  App.error (App.show_messages t st) = App.error st ∧
  App.shareUrl (App.show_messages t st) = App.shareUrl st ∧
  App.shareError (App.show_messages t st) = App.shareError st ∧
  App.loadingMessage (App.show_messages t st) =
    default (App.loadingMessage st) (last (loading_messages t)).
Proof.
  unfold App.show_messages.
  induction t as [|ev t IH] using rev_ind; intros st; [done|].
  rewrite foldl_app. cbn [foldl]. destruct (IH st) as (?&?&?&?&?&?&Hmsg).
  unfold loading_messages in *. rewrite omap_app.
  destruct ev; cbn [omap list_omap]; rewrite ?app_nil_r; try done.
  cbn. rewrite last_snoc. done.
Qed.

Lemma handleGeneration_rejected
    (run : Outcome string * list Event) (st : App.AppState) (err : Exn) :
  run.1 = Rejected err →
  let st' := App.handleGeneration run st in
  let expired :=
    includes "Requested entity was not found" (exn_message err) in
  App.videoUrl st' = None ∧
  App.apiKeySelected st' =
    (if expired then false else App.apiKeySelected st) ∧
  App.error st' =
    Some (if expired
          then "API Key validation failed. Please select a valid API key."
          else "An error occurred during video generation: "
               +:+ exn_message err).
Proof.
  intros Hrun st' expired. subst st' expired. unfold App.handleGeneration.
  rewrite Hrun.
  destruct (show_messages_fields run.2 (App.handleGenerationStart st))
    as (Hkey & Hurl & _). cbn in Hkey, Hurl.
  destruct (includes _ (exn_message err)); cbn; by rewrite ?Hurl.
Qed.

(** X12. When the call of [generateVideo] has settled, [handleGeneration]
    leaves the application not generating, with either the video handle
    and no error (it resolved) or an error and no video (it rejected),
    never both; while it has not settled the application stays in the
    generating state.  Any earlier share link and share error are cleared,
    and the loading message is the last one [generateVideo] set. *)
Theorem handleGeneration_settles
    (run : Outcome string * list Event) (st : App.AppState) :
  let st' := App.handleGeneration run st in
  (∀ url, run.1 = Resolved url →
     App.videoUrl st' = Some url ∧ App.error st' = None ∧
     App.isGenerating st' = false ∧
     App.apiKeySelected st' = App.apiKeySelected st) ∧
  (∀ err, run.1 = Rejected err →
     App.videoUrl st' = None ∧ is_Some (App.error st') ∧
     App.isGenerating st' = false) ∧
  (run.1 = Pending →
     App.videoUrl st' = None ∧ App.error st' = None ∧
     App.isGenerating st' = true) ∧
  App.shareUrl st' = None ∧ App.shareError st' = None ∧
  App.loadingMessage st' =
    default (App.loadingMessage st) (last (loading_messages run.2)).
Proof.
  intros st'. subst st'. unfold App.handleGeneration.
  destruct (show_messages_fields run.2 (App.handleGenerationStart st))
    as (Hkey & Hurl & Hgen & Herr & Hsu & Hse & Hmsg).
  cbn in Hkey, Hurl, Hgen, Herr, Hsu, Hse, Hmsg.
  split_and!.
  - intros url ->. by cbn.
  - intros err ->. destruct (includes _ _); cbn; by rewrite Hurl.
  - intros ->. by rewrite Hurl, Herr, Hgen.
  - destruct run.1 as [url|err|]; [| destruct (includes _ _) |]; by cbn.
  - destruct run.1 as [url|err|]; [| destruct (includes _ _) |]; by cbn.
  - destruct run.1 as [url|err|]; [| destruct (includes _ _) |]; by cbn.
Qed.

Lemma handleGeneration_settles_witness :
  let st' := App.handleGeneration (Resolved "blob:new", []) sample_app_state in
  App.videoUrl st' = Some "blob:new" ∧ App.error st' = None ∧
  App.isGenerating st' = false ∧
  App.apiKeySelected st' = App.apiKeySelected sample_app_state.
Proof.
  destruct (handleGeneration_settles (Resolved "blob:new", [])
              sample_app_state) as [Hok _].
  apply Hok. reflexivity.
Defined.

(** X13. A rejection whose message contains "Requested entity was not
    found" sends the user back to the key selection with the error "API
    Key validation failed. Please select a valid API key."; every other
    rejection keeps the key and shows "An error occurred during video
    generation: " followed by the message. *)
Theorem credential_rejection_forces_reselection
    (run : Outcome string * list Event) (st : App.AppState) (err : Exn) :
  run.1 = Rejected err →
  let st' := App.handleGeneration run st in
  let mentions_sentinel :=
    ∃ pre post,
      exn_message err = pre +:+ "Requested entity was not found" +:+ post in
  (mentions_sentinel →
   App.apiKeySelected st' = false ∧
   App.error st' =
     Some "API Key validation failed. Please select a valid API key.") ∧
  (¬ mentions_sentinel →
   App.apiKeySelected st' = App.apiKeySelected st ∧
   App.error st' =
     Some ("An error occurred during video generation: "
           +:+ exn_message err)).
Proof.
  intros Hrun st' mentions. subst st' mentions.
  destruct (handleGeneration_rejected run st err Hrun) as (_ & Hkey & Herr).
  cbn zeta in Hkey, Herr.
  destruct (includes _ (exn_message err)) eqn:Hinc.
  - split; [done|]. intros Hnot. destruct Hnot. by apply includes_spec.
  - split; [|done]. intros Hyes%includes_spec. congruence.
Qed.

Lemma credential_rejection_forces_reselection_witness :
  let st' := App.handleGeneration
               (Rejected (Error ("404: " +:+ "Requested entity was not found"
                                 +:+ ".")), [])
               sample_app_state in
  App.apiKeySelected st' = false ∧
  App.error st' =
    Some "API Key validation failed. Please select a valid API key.".
Proof.
  destruct (credential_rejection_forces_reselection
              (Rejected (Error ("404: " +:+ "Requested entity was not found"
                                +:+ ".")), [])
              sample_app_state
              (Error ("404: " +:+ "Requested entity was not found" +:+ "."))
              eq_refl) as [Hyes _].
  apply Hyes. by exists "404: ", ".".
Defined.

(** X14. The resolver's classes and the key: when the loop ends with an
    operation classified UpstreamError whose backend message contains
    "Requested entity was not found", the application drops the key; when
    it is classified EmptyResult or MalformedResponse the key is kept and
    the class's message is shown. *)
Theorem upstream_credential_error_drops_the_key
    env images prompt ratio apiKey req op0 s (st : App.AppState) :
  buildRequest images prompt ratio = inr req →
  generateVideos env req = Resolved op0 →
  (pollLoop (getVideosOperation env) (MkLoopState op0 0) []).1 = Resolved s →
  let st' := App.handleGeneration
               (generateVideo env images prompt ratio apiKey []) st in
  (∀ pre post,
     classify (operation s) =
       UpstreamError (pre +:+ "Requested entity was not found" +:+ post) →
     App.apiKeySelected st' = false ∧ App.videoUrl st' = None) ∧
  (classify (operation s) = EmptyResult ∨
   classify (operation s) = MalformedResponse →
   App.apiKeySelected st' = App.apiKeySelected st ∧
   App.videoUrl st' = None ∧
   ∃ m, resolution_outcome (classify (operation s)) = Rejected (Error m) ∧
        App.error st' =
          Some ("An error occurred during video generation: " +:+ m)).
Proof.
  intros Hreq Hsub Hloop st'. subst st'.
  rewrite (generateVideo_after_loop _ _ _ _ _ _ _ _ Hreq Hsub Hloop).
  cbn zeta. split.
  - intros pre post Hc. rewrite Hc.
    cbn [resolution_outcome].
    match goal with |- context [App.handleGeneration ?r st] =>
      destruct (handleGeneration_rejected r st
                  (Error ("Video generation failed: " +:+ pre
                          +:+ "Requested entity was not found" +:+ post))
                  eq_refl) as (Hurl & Hkey & _)
    end.
    cbn zeta in Hurl, Hkey. split; [|exact Hurl].
    rewrite Hkey.
    replace (includes _ _) with true; [done|].
    symmetry. apply includes_spec.
    exists ("Video generation failed: " +:+ pre), post.
    cbn [exn_message Error]. by rewrite string_app_assoc.
  - intros Hc.
    assert (Hquiet : ∀ m,
      m = "Video generation completed, but no video was returned. The content may have been filtered by safety policies. Try a different prompt or image."
      ∨ m = "Video generation completed, but no download link was found. Check the browser console for details." →
      includes "Requested entity was not found" m = false).
    { intros m [-> | ->]; by vm_compute. }
    destruct (resolution_outcome (classify (operation s)))
      as [url|[name m]|] eqn:Hout;
      [destruct Hc as [Hc|Hc]; by rewrite Hc in Hout | |
       destruct Hc as [Hc|Hc]; by rewrite Hc in Hout].
    assert (Hm : name = "Error" ∧
      (m = "Video generation completed, but no video was returned. The content may have been filtered by safety policies. Try a different prompt or image."
       ∨ m = "Video generation completed, but no download link was found. Check the browser console for details.")).
    { destruct Hc as [Hc|Hc]; rewrite Hc in Hout; injection Hout as <- <-;
        auto. }
    destruct Hm as [-> Hm].
    assert (Hrun : ∀ t,
      (match classify (operation s) with
       | Success link =>
           ((downloadVideo env link apiKey []).1,
            t ++ (downloadVideo env link apiKey []).2)
       | c => (resolution_outcome c, t)
       end).1 = Rejected (Error m)).
    { intros t. destruct Hc as [Hc|Hc]; rewrite Hc in *; exact Hout. }
    match goal with |- context [App.handleGeneration ?r st] =>
      destruct (handleGeneration_rejected r st (Error m) (Hrun _))
        as (Hurl & Hkey & Herr)
    end.
    cbn zeta in Hurl, Hkey, Herr.
    change (exn_message (Error m)) with m in Hkey, Herr.
    rewrite (Hquiet m Hm) in Hkey, Herr.
    split_and!; [done | done | by exists m].
Qed.

Lemma upstream_credential_error_drops_the_key_witness :
  let st' :=
    App.handleGeneration
      (generateVideo
         (sample_env
            [Resolved (failed_operation "Requested entity was not found.")])
         [sample_image "a"] "wave" Ratio_16_9 "KEY" [])
      sample_app_state in
  App.apiKeySelected st' = false ∧ App.videoUrl st' = None.
Proof.
  destruct (upstream_credential_error_drops_the_key
              (sample_env
                 [Resolved (failed_operation "Requested entity was not found.")])
              [sample_image "a"] "wave" Ratio_16_9 "KEY"
              {| model := "veo-3.1-fast-generate-preview"; prompt := "wave";
                 image := Some {| imageBytes := "a";
                                  image_mimeType := "image/png" |};
                 config := base_config Ratio_16_9 |}
              running_operation
              (MkLoopState
                 (failed_operation "Requested entity was not found.") 1)
              sample_app_state eq_refl eq_refl eq_refl) as [Hup _].
  apply (Hup "" "."). reflexivity.
Defined.

(** * The credential form and the password endpoint *)

Lemma endpoint_reads_password env pw :
  pw ≠ "" →
  (VerifyPassword.handler
     {| VerifyPassword.method := "POST";
        VerifyPassword.body :=
          VerifyPassword.Object {[ "password" := VerifyPassword.Str pw ]} |}
     env).1 =
  match truthy_string (env !! "ACCESS_PASSWORD"),
        truthy_string (env !! "GEMINI_API_KEY") with
  | Some accessPassword, Some apiKey =>
      if decide (pw ≠ accessPassword) then
        inr {| VerifyPassword.statusCode := 401;
               VerifyPassword.json :=
                 VerifyPassword.error_json "Invalid password" |}
      else
        inr {| VerifyPassword.statusCode := 200;
               VerifyPassword.json :=
                 VerifyPassword.Object
                   {[ "apiKey" := VerifyPassword.Str apiKey ]} |}
  | _, _ =>
      inr {| VerifyPassword.statusCode := 500;
             VerifyPassword.json :=
               VerifyPassword.error_json "Server is not configured. Set ACCESS_PASSWORD and GEMINI_API_KEY in Vercel environment variables." |}
  end.
Proof.
  intros Hne. unfold VerifyPassword.handler.
  cbn [VerifyPassword.method VerifyPassword.body
       VerifyPassword.destructure_password].
  rewrite decide_False by (by intros []).
  rewrite lookup_singleton_eq. cbn [default id].
  assert (VerifyPassword.password_string (VerifyPassword.Str pw) = Some pw)
    as -> by (by apply password_string_spec).
  repeat case_match; reflexivity.
Qed.

(** X15. The password flow end to end, the form talking to the endpoint:
    for a password that is not blank after trimming, the form hands the
    server-held API key to [onApiKeyReady] exactly when the trimmed
    password equals the server's secret; a different password shows
    "Invalid password" and a server without secret or key shows its
    configuration message, both without calling [onApiKeyReady].  In each
    case [loading] ends false, and the endpoint's "Password is required"
    answer cannot occur. *)
Theorem password_flow_end_to_end
    (trim : string → string) (env : gmap string string)
    (st : ApiKeySelector.State) :
  let pw := trim (ApiKeySelector.passwordInput st) in
  pw ≠ "" →
  let r := ApiKeySelector.handlePasswordSubmit trim
             (ApiKeySelector.verify_password_endpoint env) st in
  let st1 := ApiKeySelector.setLocalError VerifyPassword.Null
               (ApiKeySelector.setLoading true st) in
  (∀ secret key,
     truthy_string (env !! "ACCESS_PASSWORD") = Some secret →
     truthy_string (env !! "GEMINI_API_KEY") = Some key →
     (pw = secret →
      r = (ApiKeySelector.setLoading false st1,
           [ApiKeySelector.OnApiKeyReady (VerifyPassword.Str key)])) ∧
     (pw ≠ secret →
      r = (ApiKeySelector.setLoading false
             (ApiKeySelector.setLocalError
                (VerifyPassword.Str "Invalid password") st1), []))) ∧
  (¬ VerifyPassword.configured env →
   r = (ApiKeySelector.setLoading false
          (ApiKeySelector.setLocalError
             (VerifyPassword.Str "Server is not configured. Set ACCESS_PASSWORD and GEMINI_API_KEY in Vercel environment variables.")
             st1), [])) ∧
  ApiKeySelector.loading r.1 = false ∧
  ApiKeySelector.localError r.1 ≠ VerifyPassword.Str "Password is required".
Proof.
  intros pw Hne r st1. subst r st1.
  unfold ApiKeySelector.handlePasswordSubmit,
    ApiKeySelector.verify_password_endpoint.
  fold pw. rewrite decide_False by done.
  rewrite (endpoint_reads_password env pw Hne).
  assert (Hcases :
    ∀ a b, truthy_string (env !! "ACCESS_PASSWORD") = a →
           truthy_string (env !! "GEMINI_API_KEY") = b →
           (VerifyPassword.configured env ↔ is_Some a ∧ is_Some b)).
  { intros a b <- <-. reflexivity. }
  destruct (truthy_string (env !! "ACCESS_PASSWORD")) as [secret|] eqn:Hs;
    destruct (truthy_string (env !! "GEMINI_API_KEY")) as [key|] eqn:Hk.
  - destruct (decide (pw ≠ secret)) as [Hpw|Hpw].
    + split_and!; try done.
      * intros ? ? [= <-] [= <-]. split; [intros ->; done | done].
      * intros Hcfg. destruct Hcfg. apply (Hcases _ _ eq_refl eq_refl).
        split; by eexists.
    + apply dec_stable in Hpw. split_and!; try done.
      * intros ? ? [= <-] [= <-]. split; [done | intros ?; done].
      * intros Hcfg. destruct Hcfg. apply (Hcases _ _ eq_refl eq_refl).
        split; by eexists.
  - split_and!; try done.
  - split_and!; try done.
  - split_and!; try done.
Qed.

Lemma password_flow_end_to_end_witness :
  ApiKeySelector.handlePasswordSubmit (λ s, s)
    (ApiKeySelector.verify_password_endpoint configured_env)
    (sample_selector "s3cret") =
  (ApiKeySelector.setLoading false
     (ApiKeySelector.setLocalError VerifyPassword.Null
        (ApiKeySelector.setLoading true (sample_selector "s3cret"))),
   [ApiKeySelector.OnApiKeyReady (VerifyPassword.Str "AIza-key")]).
Proof.
  destruct (password_flow_end_to_end (λ s, s) configured_env
              (sample_selector "s3cret")) as (Hcfg & _); [discriminate|].
  destruct (Hcfg "s3cret" "AIza-key") as [Hok _]; [reflexivity..|].
  apply Hok. reflexivity.
Defined.

(** X16. [handlePasswordSubmit] passes a key on only after a successful
    answer: it calls [onApiKeyReady] at most once, and only with the
    [apiKey] of a response whose status is a success and whose body could
    be read, to a password that is not blank.  A blank password is refused
    without asking the server, whatever the server would say.  Once the
    server has answered or failed, [loading] is false again; while the
    answer is outstanding [loading] stays true and nothing is called. *)
Theorem key_only_after_successful_answer
    (trim : string → string)
    (verify : string → Outcome ApiKeySelector.HttpReply)
    (st : ApiKeySelector.State) :
  let pw := trim (ApiKeySelector.passwordInput st) in
  let r := ApiKeySelector.handlePasswordSubmit trim verify st in
  length r.2 ≤ 1 ∧
  (∀ key,
     ApiKeySelector.OnApiKeyReady key ∈ r.2 →
     pw ≠ "" ∧
     ∃ res data,
       verify pw = Resolved res ∧ ApiKeySelector.ok res = true ∧
       ApiKeySelector.json res = Resolved data ∧
       ApiKeySelector.read "apiKey" data = inr key) ∧
  (pw = "" →
   ∀ verify',
     ApiKeySelector.handlePasswordSubmit trim verify' st =
     (ApiKeySelector.setLocalError
        (VerifyPassword.Str "Please enter the password.") st, [])) ∧
  (pw ≠ "" →
   (verify pw = Pending ∨
    (∃ res, verify pw = Resolved res ∧ ApiKeySelector.json res = Pending) →
    ApiKeySelector.loading r.1 = true ∧ r.2 = []) ∧
   (¬ (verify pw = Pending ∨
       ∃ res, verify pw = Resolved res ∧ ApiKeySelector.json res = Pending) →
    ApiKeySelector.loading r.1 = false)).
Proof.
  intros pw r. subst r. unfold ApiKeySelector.handlePasswordSubmit. fold pw.
  destruct (decide (pw = "")) as [Hblank|Hpw].
  { split_and!; [cbn; lia | by intros ? ?%elem_of_nil | | done].
    intros _ verify'. reflexivity. }
  split_and!.
  - repeat case_match; cbn; lia.
  - intros key Hin. split; [done|].
    destruct (verify pw) as [res| |]; try by apply elem_of_nil in Hin.
    destruct (ApiKeySelector.json res) as [data| |] eqn:Hjson;
      try by apply elem_of_nil in Hin.
    destruct (ApiKeySelector.ok res) eqn:Hok; cbn [negb] in Hin.
    + destruct (ApiKeySelector.read "apiKey" data) as [e|k] eqn:Hread;
        try by apply elem_of_nil in Hin.
      apply list_elem_of_singleton in Hin as [= ->]. by exists res, data.
    + destruct (ApiKeySelector.read "error" data);
        by apply elem_of_nil in Hin.
  - done.
  - intros _. split.
    + intros [->|(res & -> & ->)]; done.
    + intros Hsettled.
      destruct (verify pw) as [res| |]; [| done | by destruct Hsettled; left].
      destruct (ApiKeySelector.json res) as [data| |] eqn:Hjson;
        [| done | destruct Hsettled; right; by exists res].
      repeat case_match; done.
Qed.

Lemma key_only_after_successful_answer_witness :
  ApiKeySelector.handlePasswordSubmit
    (λ s, s) (λ _, Rejected (Error "offline")) (sample_selector "") =
  (ApiKeySelector.setLocalError
     (VerifyPassword.Str "Please enter the password.") (sample_selector ""),
   []).
Proof.
  destruct (key_only_after_successful_answer (λ s, s) (λ _, Pending)
              (sample_selector "")) as (_ & _ & Hblank & _).
  apply (Hblank eq_refl).
Defined.

(** * Sharing to Google Drive *)

Lemma GOOGLE_CLIENT_ID_set env id :
  Drive.process_env env !! "GOOGLE_CLIENT_ID" = Some id → id ≠ "" →
  Drive.GOOGLE_CLIENT_ID env = id.
Proof.
  intros Hid Hne. unfold Drive.GOOGLE_CLIENT_ID, truthy_string.
  rewrite Hid. by rewrite decide_False.
Qed.

(** X17. Sharing is refused before anything is attempted when it is not
    configured: without a client id (unset, empty, or left at the
    placeholder) [shareVideoToDrive] rejects with "Google Client ID is not
    configured. Sharing is disabled.", and with a client id but no API key
    with "API Key is not configured. Sharing is disabled."; in both cases
    it makes no call, asks for no token and logs nothing. *)
Theorem unconfigured_sharing_makes_no_call
    (env : Drive.Env) (videoUrl : string) (t : list Drive.Call) :
  let client_id := Drive.process_env env !! "GOOGLE_CLIENT_ID" in
  let api_key := Drive.process_env env !! "API_KEY" in
  (client_id = None ∨ client_id = Some "" ∨
   client_id = Some "YOUR_GOOGLE_CLIENT_ID.apps.googleusercontent.com" →
   Drive.shareVideoToDrive env videoUrl t =
   (Drive.Failed
      (Drive.ErrorObject
         (Error "Google Client ID is not configured. Sharing is disabled.")),
    t)) ∧
  (∀ id, client_id = Some id → id ≠ "" →
         id ≠ "YOUR_GOOGLE_CLIENT_ID.apps.googleusercontent.com" →
         api_key = None ∨ api_key = Some "" →
   Drive.shareVideoToDrive env videoUrl t =
   (Drive.Failed
      (Drive.ErrorObject
         (Error "API Key is not configured. Sharing is disabled.")),
    t)).
Proof.
  intros client_id api_key. subst client_id api_key.
  unfold Drive.shareVideoToDrive. split.
  - unfold Drive.GOOGLE_CLIENT_ID. intros [->|[->| ->]]; reflexivity.
  - intros id Hid Hne Hph Hkey.
    rewrite (GOOGLE_CLIENT_ID_set env id Hid Hne).
    rewrite (bool_decide_eq_false_2 (id = "") Hne).
    rewrite (bool_decide_eq_false_2 (id = Drive.placeholder_client_id) Hph).
    cbn [orb]. unfold Drive.GOOGLE_API_KEY.
    by destruct Hkey as [-> | ->].
Qed.

Lemma unconfigured_sharing_makes_no_call_witness :
  Drive.shareVideoToDrive (drive_env (Some "id.apps.googleusercontent.com") None)
    "blob:video" [] =
  (Drive.Failed
     (Drive.ErrorObject
        (Error "API Key is not configured. Sharing is disabled.")),
   []).
Proof.
  destruct (unconfigured_sharing_makes_no_call
              (drive_env (Some "id.apps.googleusercontent.com") None)
              "blob:video" []) as [_ Hkey].
  apply (Hkey "id.apps.googleusercontent.com");
    [reflexivity | discriminate | discriminate | by left].
Defined.


Lemma getAccessToken_events (env : Drive.Env) :
  let request :=
    Drive.RequestAccessToken (Drive.GOOGLE_CLIENT_ID env) Drive.DRIVE_SCOPE in
  (Drive.getAccessToken env []).2 = [] ∨
  (Drive.getAccessToken env []).2 = [request] ∨
  (Drive.getAccessToken env []).2 = [Drive.Wait 500] ∨
  (Drive.getAccessToken env []).2 = [Drive.Wait 500; request].
Proof.
  unfold Drive.getAccessToken, Drive.requestToken, Drive.throw_error,
    Drive.throw, Drive.call, Drive.await, mbind, Drive.D_bind, mret,
    Drive.D_ret.
  destruct (Drive.gsi_loaded env), (Drive.gsi_loaded_later env),
    (Drive.token_client env) as [th|th|tr|]; cbn;
    try destruct (truthy_string (Drive.token_error tr)); cbn; auto.
Qed.

(** X19. Obtaining the token.  When the Google Identity Services library is
    missing at the call and still missing 500 ms later, [getAccessToken]
    rejects with "Google Identity Services library not loaded." after that
    one wait and asks for no token.  When the library is there (at once, or
    after the wait) and the token client calls back, an error in the
    response rejects with its description, or with "Unknown error during
    authentication." when it has none, and a response without error gives
    its access token.  The token is asked for at most once, with the
    configured client id and the Drive file scope. *)
Theorem getAccessToken_outcomes (env : Drive.Env) :
  let r := Drive.getAccessToken env [] in
  let request :=
    Drive.RequestAccessToken (Drive.GOOGLE_CLIENT_ID env)
      "https://www.googleapis.com/auth/drive.file" in
  (Drive.gsi_loaded env = false → Drive.gsi_loaded_later env = false →
   r = (Drive.Failed
          (Drive.ErrorObject
             (Error "Google Identity Services library not loaded.")),
        [Drive.Wait 500])) ∧
  (Drive.gsi_loaded env = true ∨ Drive.gsi_loaded_later env = true →
   ∀ tokenResponse,
     Drive.token_client env = Drive.Responds tokenResponse →
     (∀ e, Drive.token_error tokenResponse = Some e → e ≠ "" →
        r.1 = Drive.Failed
                (Drive.ErrorObject
                   (Error (default "Unknown error during authentication."
                             (truthy_string
                                (Drive.error_description tokenResponse)))))) ∧
     (truthy_string (Drive.token_error tokenResponse) = None →
      r.1 = Drive.Fulfilled (Drive.access_token tokenResponse))) ∧
  (r.2 = [] ∨ r.2 = [request] ∨ r.2 = [Drive.Wait 500] ∨
   r.2 = [Drive.Wait 500; request]) ∧
  (Drive.Wait 500 ∈ r.2 ↔ Drive.gsi_loaded env = false).
Proof.
  intros r request. subst r request.
  unfold Drive.getAccessToken, Drive.requestToken, Drive.throw_error,
    Drive.throw, Drive.call, Drive.await, mbind, Drive.D_bind, mret,
    Drive.D_ret.
  split_and!.
  - intros -> ->. reflexivity.
  - intros Hloaded tokenResponse ->.
    split.
    + intros e He Hne.
      assert (truthy_string (Drive.token_error tokenResponse) = Some e) as Ht.
      { rewrite He. unfold truthy_string. by rewrite decide_False. }
      destruct (Drive.gsi_loaded env), (Drive.gsi_loaded_later env);
        cbn; rewrite ?Ht; try reflexivity. by destruct Hloaded.
    + intros Ht.
      destruct (Drive.gsi_loaded env), (Drive.gsi_loaded_later env);
        cbn; rewrite ?Ht; try reflexivity. by destruct Hloaded.
  - apply getAccessToken_events.
  - destruct (Drive.gsi_loaded env), (Drive.gsi_loaded_later env),
      (Drive.token_client env) as [th|th|tr|]; cbn;
      try destruct (truthy_string (Drive.token_error tr)); cbn;
      split; intros Hin;
      first [ reflexivity | discriminate | by left
            | by inversion Hin
            | by (inversion Hin as [|? ? ? Hin']; inversion Hin') ].
Qed.

Lemma getAccessToken_outcomes_witness :
  (Drive.getAccessToken
     (drive_env (Some "id.apps.googleusercontent.com") (Some "AIza")) []).1 =
  Drive.Fulfilled "ya29.token".
Proof.
  destruct (getAccessToken_outcomes
              (drive_env (Some "id.apps.googleusercontent.com") (Some "AIza")))
    as (_ & Hloaded & _).
  destruct (Hloaded (or_introl eq_refl) _ eq_refl) as [_ Hok].
  apply Hok. reflexivity.
Defined.

Ltac drive_unfold :=
  unfold Drive.shareVideoToDrive, Drive.share_steps, Drive.try_catch,
    Drive.get, Drive.await, Drive.settle, Drive.throw_error, Drive.throw,
    Drive.call, mbind, Drive.D_bind, mret, Drive.D_ret.

Ltac drive_configured Hid Hne Hph Hkey :=
  rewrite (GOOGLE_CLIENT_ID_set _ _ Hid Hne);
  rewrite (bool_decide_eq_false_2 _ Hne);
  rewrite (bool_decide_eq_false_2 (_ = Drive.placeholder_client_id) Hph);
  cbn [orb]; unfold Drive.GOOGLE_API_KEY; rewrite Hkey.

(** X20. A refused step aborts the sequence.  With sharing configured, a
    token obtained and the video read: when the upload is answered with a
    failure status, [shareVideoToDrive] rejects with "Sharing failed:
    Failed to upload file: " and the message of the answer, having made
    the upload request only; when the upload succeeds but its answer has
    no file id, it rejects with "Sharing failed: File ID not found after
    upload.", again after the upload only; when the permission request is
    answered with a failure status, it rejects with "Sharing failed:
    Failed to set permissions: " and the message, and the metadata is never
    requested. *)
Theorem refused_step_aborts_the_sharing
    (env : Drive.Env) (videoUrl id apiKey token content : string)
    (t0 : list Drive.Call) (resp : Drive.HttpResponse) (data : Json.Value) :
  Drive.process_env env !! "GOOGLE_CLIENT_ID" = Some id →
  id ≠ "" → id ≠ "YOUR_GOOGLE_CLIENT_ID.apps.googleusercontent.com" →
  truthy_string (Drive.process_env env !! "API_KEY") = Some apiKey →
  Drive.getAccessToken env [] = (Drive.Fulfilled token, t0) →
  Drive.video_blob env videoUrl = Drive.Fulfilled content →
  Drive.upload_endpoint env = Drive.Fulfilled resp →
  Drive.json resp = Drive.Fulfilled data →
  let r := Drive.shareVideoToDrive env videoUrl [] in
  let authorization := "Bearer " +:+ token in
  let upload :=
    Drive.Upload authorization ("ai-memory-" +:+ Drive.Date_now env +:+ ".mp4")
                 "video/mp4" content in
  (∀ e m,
     Drive.ok resp = false →
     Json.get "error" data = inr e →
     Json.get "message" e = inr (Json.Str m) →
     r.1 = Drive.Failed
             (Drive.ErrorObject
                (Error ("Sharing failed: " +:+ "Failed to upload file: "
                        +:+ m))) ∧
     Drive.drive_requests r.2 = [upload]) ∧
  (∀ fileId,
     Drive.ok resp = true →
     Json.get "id" data = inr fileId →
     Json.truthy fileId = false →
     r.1 = Drive.Failed
             (Drive.ErrorObject
                (Error ("Sharing failed: "
                        +:+ "File ID not found after upload."))) ∧
     Drive.drive_requests r.2 = [upload]) ∧
  (∀ fileId presp pdata e m,
     Drive.ok resp = true →
     Json.get "id" data = inr fileId →
     Json.truthy fileId = true →
     let permissionsUrl :=
       "https://www.googleapis.com/drive/v3/files/"
       +:+ Drive.template env fileId +:+ "/permissions?key=" +:+ apiKey in
     Drive.permissions_endpoint env permissionsUrl = Drive.Fulfilled presp →
     Drive.ok presp = false →
     Drive.json presp = Drive.Fulfilled pdata →
     Json.get "error" pdata = inr e →
     Json.get "message" e = inr (Json.Str m) →
     r.1 = Drive.Failed
             (Drive.ErrorObject
                (Error ("Sharing failed: " +:+ "Failed to set permissions: "
                        +:+ m))) ∧
     Drive.drive_requests r.2 =
       [upload;
        Drive.GrantPermission permissionsUrl authorization
          "writer" "anyone"]).
Proof.
  intros Hid Hne Hph Hkey Htoken Hblob Hupload Hjson r authorization upload.
  subst r authorization upload.
  assert (Ht0 : Drive.drive_requests t0 = []).
  { destruct (getAccessToken_events env) as [H|[H|[H|H]]];
      rewrite Htoken in H; cbn [snd] in H; by rewrite H. }
  drive_unfold. drive_configured Hid Hne Hph Hkey.
  rewrite Htoken, Hblob, Hupload. cbn [fst snd].
  split_and!.
  - intros e m Hok He Hm. rewrite Hok, Hjson, He, Hm. cbn [negb].
    split; [reflexivity|]. cbn [snd]. unfold Drive.drive_requests in *.
    rewrite !filter_app, Ht0. reflexivity.
  - intros fileId Hok Hfile Hfalsy. rewrite Hok, Hjson, Hfile. cbn [negb].
    rewrite Hfalsy. cbn [negb].
    split; [reflexivity|]. cbn [snd]. unfold Drive.drive_requests in *.
    rewrite !filter_app, Ht0. reflexivity.
  - intros fileId presp pdata e m Hok Hfile Htruthy. cbn zeta.
    intros Hperm Hpok Hpjson He Hm.
    rewrite Hok, Hjson, Hfile. cbn [negb]. rewrite Htruthy. cbn [negb].
    rewrite Hperm, Hpok. cbn [negb]. rewrite Hpjson, He, Hm.
    split; [reflexivity|]. cbn [snd]. unfold Drive.drive_requests in *.
    rewrite !filter_app, Ht0. reflexivity.
Qed.





Lemma refused_step_aborts_the_sharing_witness :
  let r := Drive.shareVideoToDrive (refusing_drive_env "quota") "blob:video" [] in
  r.1 = Drive.Failed
          (Drive.ErrorObject
             (Error ("Sharing failed: " +:+ "Failed to upload file: "
                     +:+ "quota"))) ∧
  Drive.drive_requests r.2 =
    [Drive.Upload ("Bearer " +:+ "ya29.token")
       ("ai-memory-" +:+ "1700000000000" +:+ ".mp4") "video/mp4" "mp4"].
Proof.
  destruct (refused_step_aborts_the_sharing
              (refusing_drive_env "quota") "blob:video"
              "id.apps.googleusercontent.com" "AIza" "ya29.token" "mp4"
              [Drive.RequestAccessToken "id.apps.googleusercontent.com"
                 Drive.DRIVE_SCOPE]
              {| Drive.ok := false;
                 Drive.json :=
                   Drive.Fulfilled
                     (Json.Object
                        {[ "error" :=
                             Json.Object {[ "message" := Json.Str "quota" ]} ]})
              |}
              (Json.Object
                 {[ "error" := Json.Object {[ "message" := Json.Str "quota" ]} ]}))
    as [Hupload _];
    [vm_compute; reflexivity | discriminate | discriminate
    | vm_compute; reflexivity | vm_compute; reflexivity
    | reflexivity | reflexivity | reflexivity |].
  apply (Hupload (Json.Object {[ "message" := Json.Str "quota" ]}) "quota");
    [reflexivity | vm_compute; reflexivity | vm_compute; reflexivity].
Defined.

(** * The password endpoint, read from its answers *)

(** X22. The endpoint gives the API key away to the right password only:
    every answer has status 200, 400, 401, 405 or 500; an answer that
    carries an [apiKey] has status 200, was given to a POST whose body is
    an object holding, as [password], the non-empty string that is the
    server's [ACCESS_PASSWORD], and the key it carries is the server's
    [GEMINI_API_KEY]; every other answer carries an [error] text and no
    key.  The handler throws instead of answering exactly on a POST whose
    body is [undefined] or [null]. *)
Theorem api_key_only_for_the_right_password
    (req : VerifyPassword.VercelRequest) (env : gmap string string) :
  let r := (VerifyPassword.handler req env).1 in
  (∀ res, r = inr res →
     VerifyPassword.statusCode res ∈ [200; 400; 401; 405; 500] ∧
     ∃ fields,
       VerifyPassword.json res = VerifyPassword.Object fields ∧
       (VerifyPassword.statusCode res ≠ 200 →
        fields !! "apiKey" = None ∧
        ∃ msg, fields !! "error" = Some (VerifyPassword.Str msg)) ∧
       ∀ v, fields !! "apiKey" = Some v →
         VerifyPassword.statusCode res = 200 ∧
         VerifyPassword.method req = "POST" ∧
         ∃ secret key body,
           VerifyPassword.body req = VerifyPassword.Object body ∧
           body !! "password" = Some (VerifyPassword.Str secret) ∧
           secret ≠ "" ∧
           env !! "ACCESS_PASSWORD" = Some secret ∧
           env !! "GEMINI_API_KEY" = Some key ∧
           v = VerifyPassword.Str key) ∧
  ((∃ e, r = inl e) ↔
   VerifyPassword.method req = "POST" ∧
   (VerifyPassword.body req = VerifyPassword.Undefined ∨
    VerifyPassword.body req = VerifyPassword.Null)).
Proof.
  intros r. subst r. unfold VerifyPassword.handler.
  assert (Herr : ∀ msg,
    (VerifyPassword.error_json msg = VerifyPassword.Object {[ "error" := VerifyPassword.Str msg ]})
    ∧ ({[ "error" := VerifyPassword.Str msg ]} : gmap string VerifyPassword.JsValue)
        !! "apiKey" = None
    ∧ ({[ "error" := VerifyPassword.Str msg ]} : gmap string VerifyPassword.JsValue)
        !! "error" = Some (VerifyPassword.Str msg)).
  { intros msg. split_and!; [done | by apply lookup_singleton_ne
                            | by apply lookup_singleton_eq]. }
  assert (Hanswer : ∀ code msg res,
    code ∈ [400; 401; 405; 500] →
    (inr {| VerifyPassword.statusCode := code;
            VerifyPassword.json := VerifyPassword.error_json msg |}
       : Exn + VerifyPassword.VercelResponse) = inr res →
    VerifyPassword.statusCode res ∈ [200; 400; 401; 405; 500] ∧
    ∃ fields,
      VerifyPassword.json res = VerifyPassword.Object fields ∧
      (VerifyPassword.statusCode res ≠ 200 →
       fields !! "apiKey" = None ∧
       ∃ m, fields !! "error" = Some (VerifyPassword.Str m)) ∧
      ∀ v, fields !! "apiKey" = Some v →
        VerifyPassword.statusCode res = 200 ∧
        VerifyPassword.method req = "POST" ∧
        ∃ secret key body,
          VerifyPassword.body req = VerifyPassword.Object body ∧
          body !! "password" = Some (VerifyPassword.Str secret) ∧
          secret ≠ "" ∧
          env !! "ACCESS_PASSWORD" = Some secret ∧
          env !! "GEMINI_API_KEY" = Some key ∧
          v = VerifyPassword.Str key).
  { intros code msg res Hcode [= <-]. destruct (Herr msg) as (Hj & Hk & He).
    split; [by apply elem_of_cons; right|].
    eexists. split; [exact Hj|]. split.
    - intros _. split; [exact Hk | by eexists].
    - intros v Hv. rewrite Hk in Hv. done. }
  destruct (decide (VerifyPassword.method req ≠ "POST")) as [Hm|Hm].
  { split.
    - intros res. apply Hanswer. repeat constructor.
    - split; [by intros [e ?] | by intros [? _]]. }
  apply dec_stable in Hm.
  destruct (VerifyPassword.body req) as [| |b|n|s|fields] eqn:Hbody; cbn.
  1,2: split; [done | split; [by auto | by eexists]].
  1,2,3: split; [intros res; apply Hanswer; repeat constructor
               | split; [by intros [e ?] | by intros [_ [?|?]]]].
  split; [|split; [by repeat case_match; intros [e ?] | by intros [_ [?|?]]]].
  intros res.
  destruct (VerifyPassword.password_string
              (default VerifyPassword.Undefined (fields !! "password")))
    as [pw|] eqn:Hpw; [|apply Hanswer; repeat constructor].
  apply password_string_spec in Hpw as [Hpw Hne].
  destruct (fields !! "password") as [p|] eqn:Hfield; [|done].
  cbn in Hpw. subst p.
  destruct (truthy_string (env !! "ACCESS_PASSWORD")) as [secret|] eqn:Hs;
    [|apply Hanswer; repeat constructor].
  destruct (truthy_string (env !! "GEMINI_API_KEY")) as [key|] eqn:Hk;
    [|apply Hanswer; repeat constructor].
  destruct (decide (pw ≠ secret)) as [Hdiff|Hsame];
    [apply Hanswer; repeat constructor|].
  apply dec_stable in Hsame. subst secret. intros [= <-].
  split; [by left|]. eexists. split; [reflexivity|]. split; [done|].
  intros v Hv. rewrite lookup_singleton_eq in Hv. injection Hv as <-.
  split_and!; try done.
  exists pw, key, fields. split_and!; try done.
  - unfold truthy_string in Hs. destruct (env !! "ACCESS_PASSWORD"); [|done].
    by case_decide; simplify_eq.
  - unfold truthy_string in Hk. destruct (env !! "GEMINI_API_KEY"); [|done].
    by case_decide; simplify_eq.
Qed.

Lemma api_key_only_for_the_right_password_witness :
  VerifyPassword.statusCode
    {| VerifyPassword.statusCode := 200;
       VerifyPassword.json :=
         VerifyPassword.Object
           {[ "apiKey" := VerifyPassword.Str "AIza-key" ]} |}
  ∈ [200; 400; 401; 405; 500].
Proof.
  destruct (api_key_only_for_the_right_password
              {| VerifyPassword.method := "POST";
                 VerifyPassword.body := password_body "s3cret" |}
              configured_env) as [Hres _].
  destruct (Hres {| VerifyPassword.statusCode := 200;
                    VerifyPassword.json :=
                      VerifyPassword.Object
                        {[ "apiKey" := VerifyPassword.Str "AIza-key" ]} |})
    as [Hstatus _]; [vm_compute; reflexivity|].
  exact Hstatus.
Defined.

(** * Prompt suggestions in the form *)

(** X23. Asking for suggestions never touches the selection, the previews,
    the prompt or the aspect ratio, and does nothing at all without an
    image.  With an image, only the first one is consulted, and the form
    ends not suggesting with either the service's suggestions and no error,
    or no suggestion and the error "Failed to get suggestions: " followed
    by the message of what failed (the conversion of the first image, or
    the service); an earlier error or earlier suggestions never survive. *)
Theorem handleSuggestPrompts_outcome
    (fileToGenerativePart : VideoGeneratorForm.File → Exn + ImageInput)
    (suggestPrompts : ImageInput → Exn + list string)
    (st : VideoGeneratorForm.FormState) :
  let st' := VideoGeneratorForm.handleSuggestPrompts
               fileToGenerativePart suggestPrompts st in
  (VideoGeneratorForm.imageFiles st' = VideoGeneratorForm.imageFiles st ∧
   VideoGeneratorForm.imagePreviews st' = VideoGeneratorForm.imagePreviews st ∧
   VideoGeneratorForm.prompt st' = VideoGeneratorForm.prompt st ∧
   VideoGeneratorForm.aspectRatio st' = VideoGeneratorForm.aspectRatio st) ∧
  (VideoGeneratorForm.imageFiles st = [] → st' = st) ∧
  (∀ file0 rest,
     VideoGeneratorForm.imageFiles st = file0 :: rest →
     VideoGeneratorForm.isSuggesting st' = false ∧
     (∀ part new,
        fileToGenerativePart file0 = inr part →
        suggestPrompts part = inr new →
        VideoGeneratorForm.suggestions st' = new ∧
        VideoGeneratorForm.error st' = None) ∧
     (∀ e,
        fileToGenerativePart file0 = inl e ∨
        (∃ part, fileToGenerativePart file0 = inr part ∧
                 suggestPrompts part = inl e) →
        VideoGeneratorForm.suggestions st' = [] ∧
        VideoGeneratorForm.error st' =
          Some ("Failed to get suggestions: " +:+ exn_message e))).
Proof.
  intros st'. subst st'. unfold VideoGeneratorForm.handleSuggestPrompts.
  destruct (VideoGeneratorForm.imageFiles st) as [|f fs] eqn:Hfiles.
  { split_and!; try done. }
  split_and!; try done; try (by repeat case_match; cbn).
  intros file0 rest [= <- <-]. split_and!.
  - by repeat case_match.
  - intros part new -> ->. done.
  - intros e [-> | (part & -> & ->)]; done.
Qed.

Lemma handleSuggestPrompts_outcome_witness :
  let st' :=
    VideoGeneratorForm.handleSuggestPrompts
      (λ f, inr (sample_image (VideoGeneratorForm.name f)))
      (λ _, inl (Error "Failed to generate prompt suggestions."))
      sample_session.1 in
  VideoGeneratorForm.suggestions st' = [] ∧
  VideoGeneratorForm.error st' =
    Some ("Failed to get suggestions: "
          +:+ "Failed to generate prompt suggestions.").
Proof.
  destruct (handleSuggestPrompts_outcome
              (λ f, inr (sample_image (VideoGeneratorForm.name f)))
              (λ _, inl (Error "Failed to generate prompt suggestions."))
              sample_session.1) as (_ & _ & Hrun).
  destruct (Hrun (sample_file "a.png") [sample_file "b.png"] eq_refl)
    as (_ & _ & Hfail).
  apply (Hfail (Error "Failed to generate prompt suggestions.")).
  right. by eexists.
Defined.
